(** * goseq: streaming FASTA/FASTQ decoders and the fq2fa conversion pipeline

    A shallow embedding of the Go package [goseq] (the FASTA reader, the
    FASTQ reader, [Open]/[OpenFastq]) and of the [fq2fa] command's record
    writer, round-robin sharder and file-name helper, and of the packed
    k-mers of [kmers.go], together with the properties the specification
    states about them and further properties read off the code.

    Byte streams are lists of bytes.  The buffered reader [bufio.Reader]
    is modelled by the bytes it has not yet handed out, the size of its
    internal buffer and the error its source reports once the data is
    exhausted ([io.EOF] for a file). *)

From Stdlib Require Import ZArith QArith Ascii String.
From stdpp Require Import base tactics option list numbers strings.

Close Scope Q_scope.
Open Scope nat_scope.

(** ** Bytes, strings and errors *)

Abbreviation byte := ascii.

Definition nl : byte := "010"%char.
Definition gt : byte := ">"%char.
Definition at_sign : byte := "@"%char.
Definition plus : byte := "+"%char.

(** Go strings are byte strings; [bytes] reads a literal as its bytes. *)
Definition bytes (s : string) : list byte := list_ascii_of_string s.

(** A text given line by line, every line followed by its terminator. *)
Definition unlines (ls : list (list byte)) : list byte :=
  concat (map (λ l, l ++ [nl]) ls).

Inductive error : Type :=
  | errNotStarted          (* "goseq: Next() not yet called" *)
  | io_EOF                 (* io.EOF *)
  | ErrBufferFull          (* bufio.ErrBufferFull *)
  | errNotFastq            (* "goseq: not a fastq file" *)
  | OtherErr (msg : string) (* any other error of the operating system or of a decompressor *).

Global Instance error_eq_dec : EqDecision error.
Proof. solve_decision. Defined.

(** ** bufio.Reader *)

Module bufio.

Record Reader : Type := mkReader {
  buf_size : nat;        (* len(b.buf) *)
  unread : list byte;    (* bytes of the source not yet returned *)
  src_err : error        (* what the source reports after its last byte *)
}.

(** bufio.NewReader: the default buffer holds 4096 bytes. *)
Definition defaultBufSize : nat := 4096.

Definition NewReader (data : list byte) (e : error) : Reader :=
  mkReader defaultBufSize data e.

Definition with_unread (b : Reader) (l : list byte) : Reader :=
  mkReader (buf_size b) l (src_err b).

(** [read_line l] is the prefix of [l] up to and including the first
    line terminator, what follows it, and whether a terminator was met. *)
Fixpoint read_line (l : list byte) : list byte * list byte * bool :=
  match l with
  | [] => ([], [], false)
  | c :: l' =>
      if decide (c = nl) then ([c], l', true)
      else let '(ln, rest, found) := read_line l' in (c :: ln, rest, found)
  end.

(** Peek(1): the next byte without consuming it, or the source's error. *)
Definition Peek1 (b : Reader) : list byte * option error :=
  match unread b with
  | [] => ([], Some (src_err b))
  | c :: _ => ([c], None)
  end.

(** ReadBytes('\n'): everything up to and including the terminator,
    whatever the buffer size; at the end of the data, what is left
    together with the source's error. *)
Definition ReadBytes (b : Reader) : list byte * option error * Reader :=
  let '(ln, rest, found) := read_line (unread b) in
  (ln, if found then None else Some (src_err b), with_unread b rest).

(** ReadSlice('\n'): like ReadBytes, but limited to one buffer: when the
    buffer fills before a terminator is seen, the full buffer is returned
    with ErrBufferFull. *)
Definition ReadSlice (b : Reader) : list byte * option error * Reader :=
  let '(ln, _, found) := read_line (take (buf_size b) (unread b)) in
  if found then (ln, None, with_unread b (drop (length ln) (unread b)))
  else if decide (buf_size b ≤ length (unread b)) then
    (take (buf_size b) (unread b), Some ErrBufferFull,
     with_unread b (drop (buf_size b) (unread b)))
  else (unread b, Some (src_err b), with_unread b []).

(** Discard(n): skips n bytes; when fewer are left, skips them all and
    reports the source's error. *)
Definition Discard (n : nat) (b : Reader) : nat * option error * Reader :=
  if decide (n = 0) then (0, None, b)
  else if decide (n ≤ length (unread b)) then (n, None, with_unread b (drop n (unread b)))
  else (length (unread b), Some (src_err b), with_unread b []).

End bufio.

(** Go's [b[1 : len(b)-1]]: a run-time panic (here [None]) unless
    [1 <= len(b)-1]. *)
Definition slice_1_to_last (b : list byte) : option (list byte) :=
  if decide (2 ≤ length b) then Some (take (length b - 2) (drop 1 b)) else None.

(** Go's [b[:len(b)-1]] on a non-empty slice. *)
Definition drop_last (b : list byte) : list byte := take (length b - 1) b.

(** [b[0] == c] on a non-empty slice. *)
Definition starts_with (c : byte) (b : list byte) : bool :=
  match b with
  | x :: _ => bool_decide (x = c)
  | [] => false
  end.

(** ** The FASTA reader (fastFastaReader) *)

(** [identifierBytes], when set by Sequence(), is the slice ReadSlice
    returned: it shares the reader's buffer and is valid until the next
    read.  The states below record its value at the time it is set; the
    callers modelled here (the conversion loop) read the identifier before
    they read on. *)

Module Fasta.

Record reader : Type := mkReader {
  closed : bool;                 (* f.f has been closed *)
  br : bufio.Reader;
  lastErr : option error;
  identifierBytes : list byte;
  lastBytes : list byte
}.

Definition Err (f : reader) : option error := lastErr f.

Definition Next (f : reader) : bool * reader :=
  let f1 :=
    if decide (lastErr f = Some errNotStarted) then
      let '(ln, e, b) := bufio.ReadBytes (br f) in
      mkReader (closed f) b e ln (lastBytes f)
    else f in
  if decide (lastErr f1 = Some io_EOF) then
    (false, mkReader true (br f1) (lastErr f1) (identifierBytes f1) (lastBytes f1))
  else if decide (lastErr f1 = None) then
    match identifierBytes f1 with
    | [] => (false, f1)
    | c :: _ => (bool_decide (c = gt), f1)
    end
  else (false, f1).

Definition Identifier (f : reader) : option (list byte) :=
  slice_1_to_last (identifierBytes f).

(** The loop of Sequence(); [fuel] bounds the number of reads. *)
Fixpoint Sequence_loop (fuel : nat) (f : reader) (seq : list byte)
  : option (list byte * reader) :=
  match fuel with
  | 0 => None
  | S fuel' =>
      let '(ln, e, b) := bufio.ReadSlice (br f) in
      let e' := if decide (e = Some ErrBufferFull) then None else e in
      let f' := mkReader (closed f) b e' (identifierBytes f) ln in
      match e' with
      | Some _ => Some (seq, f')
      | None =>
          match ln with
          | [] => Some (seq, f')
          | c :: _ =>
              if decide (c = gt) then
                Some (seq, mkReader (closed f) b e' ln ln)
              else Sequence_loop fuel' f' (seq ++ drop_last ln)
          end
      end
  end.

(** Every read that lets the loop go on consumes a byte, so one more
    round than there are unread bytes is enough. *)
Definition Sequence (f : reader) : option (list byte * reader) :=
  Sequence_loop (S (length (bufio.unread (br f)))) f [].

(** The loop of SequenceBytes(); the bytes handed to the callback are
    collected in [out].  The result is the error returned. *)
Fixpoint SequenceBytes_loop (fuel : nat) (f : reader) (out : list byte)
  : option (option error * list byte * reader) :=
  match fuel with
  | 0 => None
  | S fuel' =>
      let '(ln, e, b) := bufio.ReadSlice (br f) in
      let e' := if decide (e = Some ErrBufferFull) then None else e in
      let f' := mkReader (closed f) b e' (identifierBytes f) ln in
      let continue (out' : list byte) :=
        if decide (e' = Some io_EOF) then Some (None, out', f')
        else match e' with
             | Some x => Some (Some x, out', f')
             | None => SequenceBytes_loop fuel' f' out'
             end in
      if decide (1 < length ln) then
        if starts_with gt ln then
          Some (None, out, mkReader (closed f) b e' ln ln)
        else continue (out ++ drop_last ln)
      else continue out
  end.

Definition SequenceBytes (f : reader) : option (option error * list byte * reader) :=
  SequenceBytes_loop (S (S (length (bufio.unread (br f))))) f [].

End Fasta.

(** ** The FASTQ reader (fastFastqReader) *)

Module Fastq.

Record reader : Type := mkReader {
  closed : bool;
  br : bufio.Reader;
  identifierBytes : list byte;
  lastSeqLen : nat;
  lastBytes : list byte;
  lastErr : option error
}.

Definition Err (f : reader) : option error := lastErr f.

(** [for f.lastSeqLen > 0 && f.lastErr == nil { Discard ... }] *)
Fixpoint discard_loop (fuel : nat) (f : reader) : option reader :=
  if bool_decide (0 < lastSeqLen f) && bool_decide (lastErr f = None) then
    match fuel with
    | 0 => None
    | S fuel' =>
        let '(skipped, e, b) := bufio.Discard (lastSeqLen f) (br f) in
        discard_loop fuel'
          (mkReader (closed f) b (identifierBytes f) (lastSeqLen f - skipped)
                    (lastBytes f) e)
    end
  else Some f.

(** [for len(id) > 0 && id[0] != '@' && f.lastErr == nil { ReadBytes }] *)
Fixpoint resync_loop (fuel : nat) (f : reader) : option reader :=
  let go_on :=
    match identifierBytes f with
    | [] => false
    | c :: _ => bool_decide (c ≠ at_sign) && bool_decide (lastErr f = None)
    end in
  if go_on then
    match fuel with
    | 0 => None
    | S fuel' =>
        let '(ln, e, b) := bufio.ReadBytes (br f) in
        resync_loop fuel' (mkReader (closed f) b ln (lastSeqLen f) (lastBytes f) e)
    end
  else Some f.

Definition Next (f : reader) : option (bool * reader) :=
  let f1 :=
    if decide (lastErr f = Some errNotStarted) then
      let '(ln, e, b) := bufio.ReadBytes (br f) in
      mkReader (closed f) b ln (lastSeqLen f) (lastBytes f) e
    else f in
  if decide (lastErr f1 = Some io_EOF) then
    Some (false, mkReader true (br f1) (identifierBytes f1) (lastSeqLen f1)
                          (lastBytes f1) (lastErr f1))
  else if decide (lastErr f1 = None) then
    let finish (f : reader) : bool * reader :=
      (starts_with at_sign (identifierBytes f), f) in
    if decide (0 < lastSeqLen f1) then
      f2 ← discard_loop (lastSeqLen f1) f1;
      if decide (lastErr f2 = None) then
        let '(ln, e, b) := bufio.ReadBytes (br f2) in
        f3 ← resync_loop (S (length (bufio.unread b)))
               (mkReader (closed f2) b ln (lastSeqLen f2) (lastBytes f2) e);
        Some (finish f3)
      else Some (false, f2)
    else Some (finish f1)
  else Some (false, f1).

Definition Identifier (f : reader) : option (list byte) :=
  slice_1_to_last (identifierBytes f).

Fixpoint Sequence_loop (fuel : nat) (f : reader) (seq : list byte)
  : option (list byte * reader) :=
  match fuel with
  | 0 => None
  | S fuel' =>
      let '(ln, e, b) := bufio.ReadSlice (br f) in
      let e' := if decide (e = Some ErrBufferFull) then None else e in
      let f' := mkReader (closed f) b (identifierBytes f) (lastSeqLen f) ln e' in
      match e' with
      | Some _ => Some (seq, f')
      | None =>
          match ln with
          | [] => Some (seq, f')
          | c :: _ =>
              if decide (c = plus) then
                Some (seq, mkReader (closed f) b (identifierBytes f) (length seq) ln e')
              else Sequence_loop fuel' f' (seq ++ drop_last ln)
          end
      end
  end.

Definition Sequence (f : reader) : option (list byte * reader) :=
  Sequence_loop (S (length (bufio.unread (br f)))) f [].

Fixpoint SequenceBytes_loop (fuel : nat) (f : reader) (out : list byte)
  : option (option error * list byte * reader) :=
  match fuel with
  | 0 => None
  | S fuel' =>
      let '(ln, e, b) := bufio.ReadSlice (br f) in
      let e' := if decide (e = Some ErrBufferFull) then None else e in
      let continue (n : nat) (out' : list byte) :=
        let f' := mkReader (closed f) b (identifierBytes f) n ln e' in
        if decide (e' = Some io_EOF) then Some (None, out', f')
        else match e' with
             | Some x => Some (Some x, out', f')
             | None => SequenceBytes_loop fuel' f' out'
             end in
      if decide (1 < length ln) then
        if starts_with plus ln then
          Some (None, out, mkReader (closed f) b (identifierBytes f) (lastSeqLen f) ln e')
        else continue (lastSeqLen f + length (drop_last ln)) (out ++ drop_last ln)
      else continue (lastSeqLen f) out
  end.

Definition SequenceBytes (f : reader) : option (option error * list byte * reader) :=
  SequenceBytes_loop (S (S (length (bufio.unread (br f))))) f [].

(** fastqOpenFrom: the FASTQ reader takes over the stream of the FASTA
    reader that peeked it. *)
Definition fastqOpenFrom (f : Fasta.reader) : reader :=
  mkReader (Fasta.closed f) (Fasta.br f) [] 0 [] (Fasta.lastErr f).

End Fastq.

(** ** The Reader interface, Open and OpenFastq *)

Module goseq.

(** What the file system and the decompressors give for one file name. *)
Record file : Type := mkFile {
  filename : string;
  open_err : option error;   (* os.Open fails with this error *)
  gzip_err : option error;   (* gzip.NewReader rejects the header *)
  data : list byte;          (* bytes the (decompressed) stream yields *)
  data_err : error           (* what the stream reports after them *)
}.

Definition HasSuffix (s suf : string) : bool :=
  bool_decide (bytes suf `suffix_of` bytes s).

(** The two implementations of the Reader interface. *)
Inductive Reader : Type :=
  | FastaReader (f : Fasta.reader)
  | FastqReader (f : Fastq.reader).

(** Open: the decompressors are outside the model; gzip.NewReader may
    reject the file, bzip2.NewReader never fails at this point. *)
Definition Open (fl : file) : option Reader * option error :=
  match open_err fl with
  | Some e => (None, Some e)
  | None =>
      match (if HasSuffix (filename fl) ".gz" then gzip_err fl else None) with
      | Some e => (None, Some e)
      | None =>
          let f := Fasta.mkReader false (bufio.NewReader (data fl) (data_err fl))
                                  (Some errNotStarted) [] [] in
          let '(bb, err) := bufio.Peek1 (Fasta.br f) in
          match bb with
          | [c] =>
              if decide (c = at_sign) then (Some (FastqReader (Fastq.fastqOpenFrom f)), None)
              else (Some (FastaReader f), err)
          | _ => (Some (FastaReader f), err)
          end
      end
  end.

Definition OpenFastq (fl : file) : option Reader * option error :=
  match open_err fl with
  | Some e => (None, Some e)
  | None =>
      match (if HasSuffix (filename fl) ".gz" then gzip_err fl else None) with
      | Some e => (None, Some e)
      | None =>
          let f := Fastq.mkReader false (bufio.NewReader (data fl) (data_err fl))
                                  [] 0 [] (Some errNotStarted) in
          let '(bb, err) := bufio.Peek1 (Fastq.br f) in
          match bb with
          | [c] =>
              if decide (c ≠ at_sign) then (None, Some errNotFastq)
              else (Some (FastqReader f), err)
          | _ => (Some (FastqReader f), err)
          end
      end
  end.

Definition Next (r : Reader) : option (bool * Reader) :=
  match r with
  | FastaReader f => let '(ok, f') := Fasta.Next f in Some (ok, FastaReader f')
  | FastqReader f => '(ok, f') ← Fastq.Next f; Some (ok, FastqReader f')
  end.

(** [None]: the slice expression panics. *)
Definition Identifier (r : Reader) : option (list byte) :=
  match r with
  | FastaReader f => Fasta.Identifier f
  | FastqReader f => Fastq.Identifier f
  end.

Definition Sequence (r : Reader) : option (list byte * Reader) :=
  match r with
  | FastaReader f => '(s, f') ← Fasta.Sequence f; Some (s, FastaReader f')
  | FastqReader f => '(s, f') ← Fastq.Sequence f; Some (s, FastqReader f')
  end.

Definition Err (r : Reader) : option error :=
  match r with
  | FastaReader f => Fasta.Err f
  | FastqReader f => Fastq.Err f
  end.

Definition unread (r : Reader) : list byte :=
  match r with
  | FastaReader f => bufio.unread (Fasta.br f)
  | FastqReader f => bufio.unread (Fastq.br f)
  end.

(** A plain, readable file holding [bs]. *)
Definition plain_file (bs : list byte) : file :=
  mkFile "in.txt" None None bs io_EOF.

End goseq.

(** ** The fq2fa command: conversion loop, record writer, sharder *)

Module fq2fa.

Record Seq : Type := mkSeq {
  Identifier : list byte;
  Sequence : list byte
}.

Global Instance Seq_eq_dec : EqDecision Seq.
Proof. solve_decision. Defined.

(** [for rdr.Next() { seqChan <- Seq{rdr.Identifier(), rdr.Sequence()} }]:
    the records sent, in order.  The two calls are made left to right.
    The progress sample sent before each record does not touch the
    reader and is left out. *)
Fixpoint convert_loop (fuel : nat) (r : goseq.Reader) (sent : list Seq)
  : option (list Seq * goseq.Reader) :=
  match fuel with
  | 0 => None
  | S fuel' =>
      '(ok, r1) ← goseq.Next r;
      if ok : bool then
        id ← goseq.Identifier r1;
        '(s, r2) ← goseq.Sequence r1;
        convert_loop fuel' r2 (sent ++ [mkSeq id s])
      else Some (sent, r1)
  end.

(** The records of a reader, read to its end. *)
Definition records_of (r : goseq.Reader) : option (list Seq * goseq.Reader) :=
  convert_loop (S (S (length (goseq.unread r)))) r [].

(** convertFile on one file: [None] when it panics (Open fails, or the
    reader ends on an error other than io.EOF). *)
Definition convertFile (fl : goseq.file) : option (list Seq) :=
  match goseq.Open fl with
  | (Some r, None) =>
      '(sent, r') ← records_of r;
      match goseq.Err r' with
      | None | Some io_EOF => Some sent
      | Some _ => None
      end
  | _ => None
  end.

(** fmt.Fprintln(w, s) on the text written so far. *)
Definition Fprintln (w : list byte) (s : list byte) : list byte :=
  w ++ s ++ [nl].

(** [for len(s.Sequence) > 80 { Fprintln(w, s.Sequence[:80]); ... }] *)
Fixpoint wrap_loop (fuel : nat) (w : list byte) (s : list byte)
  : option (list byte * list byte) :=
  if decide (80 < length s) then
    match fuel with
    | 0 => None
    | S fuel' => wrap_loop fuel' (Fprintln w (take 80 s)) (drop 80 s)
    end
  else Some (w, s).

(** The body of seqWriter's loop for one record. *)
Definition write_record (w : list byte) (s : Seq) : option (list byte) :=
  let w1 := Fprintln w (gt :: Identifier s) in
  '(w2, rest) ← wrap_loop (length (Sequence s)) w1 (Sequence s);
  Some (Fprintln w2 rest).

(** seqWriter: the text written for the records received, in order. *)
Fixpoint seqWriter_loop (w : list byte) (rs : list Seq) : option (list byte) :=
  match rs with
  | [] => Some w
  | s :: rs' => w' ← write_record w s; seqWriter_loop w' rs'
  end.

Definition seqWriter (rs : list Seq) : option (list byte) :=
  seqWriter_loop [] rs.

(** fanWriters: [subs] holds, per destination, the records sent on its
    channel so far (a channel is a FIFO queue); [idx] is the counter.
    [idx%n] panics for n = 0. *)
Fixpoint fanWriters_loop (n : nat) (subs : list (list Seq)) (idx : nat)
    (rs : list Seq) : option (list (list Seq) * nat) :=
  match rs with
  | [] => Some (subs, idx)
  | s :: rs' =>
      if decide (n = 0) then None
      else fanWriters_loop n (alter (λ q, q ++ [s]) (idx mod n) subs) (S idx) rs'
  end.

Definition fanWriters (n : nat) (rs : list Seq) : option (list (list Seq) * nat) :=
  fanWriters_loop n (replicate n []) 0 rs.

End fq2fa.

(** ** Progress() *)

Module progress.

(** What the operating system answers for the file of a decoder:
    Stat() gives the size and Seek(0, SEEK_CUR) the offset, or fail. *)
Record os_File : Type := mkFile {
  Stat : option Z;
  Seek_cur : option Z
}.

(** int64 arithmetic wraps around. *)
Definition wrap64 (z : Z) : Z := ((z + 2 ^ 63) mod 2 ^ 64 - 2 ^ 63)%Z.

Section float64.
(** Rounding of a real number to float64. *)
Variable fl : Q → Q.

Definition float64 (z : Z) : Q := fl (inject_Z z).
Definition fdiv (x y : Q) : Q := fl (x / y)%Q.

Definition unknown : Q := inject_Z (-1).

(** Progress() is the same function in both readers. *)
Definition Progress (f : os_File) : Q :=
  match Stat f with
  | None => unknown
  | Some size =>
      if (size <=? 0)%Z then unknown
      else match Seek_cur f with
           | None => unknown
           | Some pos => fdiv (float64 (wrap64 (pos * 100))) (float64 size)
           end
  end.

(** What is used of float64 rounding: it is monotone and leaves
    integers of at most 53 bits unchanged. *)
Definition rounding : Prop :=
  (∀ x y, (x <= y)%Q → (fl x <= fl y)%Q) ∧
  (∀ n, (- 2 ^ 53 ≤ n ≤ 2 ^ 53)%Z → (fl (inject_Z n) == inject_Z n)%Q).
End float64.

End progress.

(** ** Packed k-mers (kmers.go) *)

Module kmer.

(** Kmer is a uint64: arithmetic and shifts wrap around modulo 2^64. *)
Definition uint64 (z : Z) : Z := (z mod 2 ^ 64)%Z.

(** [^Kmer(0)] *)
Definition InvalidKmer : Z := (2 ^ 64 - 1)%Z.

Definition MaxKmerSize : Z := 32%Z.

Record BaseKmer : Type := mkBase {
  k : Z;       (* int *)
  mask : Z     (* Kmer *)
}.

(** NewKmerBase; [k] is a uint, [None] is the error for a size that is
    too large.  The shift [1<<(k*2)] is a uint64 shift: it gives 0 for a
    count of 64. *)
Definition NewKmerBase (k : N) : option BaseKmer :=
  if (MaxKmerSize <? Z.of_N k)%Z then None
  else Some (mkBase (Z.of_N k)
                    (uint64 (uint64 (Z.shiftl 1 (Z.of_N k * 2)) - 1))).

Definition Length (b : BaseKmer) : Z := k b.

Definition Count (b : BaseKmer) : Z := uint64 (1 + mask b).

(** AppendBase: the new value of [*k]. *)
Definition AppendBase (b : BaseKmer) (km : Z) (nuc : byte) : Z :=
  let km1 := Z.land (mask b) (uint64 (Z.shiftl km 2)) in
  if bool_decide (nuc = "A"%char ∨ nuc = "a"%char) then km1
  else if bool_decide (nuc = "C"%char ∨ nuc = "c"%char) then Z.lor km1 1
  else if bool_decide (nuc = "G"%char ∨ nuc = "g"%char) then Z.lor km1 2
  else if bool_decide (nuc = "T"%char ∨ nuc = "t"%char) then Z.lor km1 3
  else km1.

(** The letter String() writes for a two-bit value. *)
Definition letter (d : Z) : list byte :=
  if (d =? 0)%Z then ["a"%char]
  else if (d =? 1)%Z then ["c"%char]
  else if (d =? 2)%Z then ["g"%char]
  else if (d =? 3)%Z then ["t"%char]
  else [].

(** [for i := b.k - 1; i >= 0; i-- { r += ... }], with [n] rounds left:
    the round for [n = S i] looks at position [i]. *)
Fixpoint String_loop (n : nat) (km : Z) (r : list byte) : list byte :=
  match n with
  | 0 => r
  | S i =>
      String_loop i km
        (r ++ letter (Z.land (Z.shiftr km (Z.of_nat i * 2)) 3))
  end.

Definition String (b : BaseKmer) (km : Z) : list byte :=
  if (km =? InvalidKmer)%Z then replicate (Z.to_nat (k b)) "-"%char
  else String_loop (Z.to_nat (k b)) km [].

End kmer.

(** The two-bit code AppendBase gives a byte: bytes other than the four
    bases, in either case, count as 'A'. *)
Definition base_code (nuc : byte) : Z :=
  if bool_decide (nuc = "C"%char ∨ nuc = "c"%char) then 1%Z
  else if bool_decide (nuc = "G"%char ∨ nuc = "g"%char) then 2%Z
  else if bool_decide (nuc = "T"%char ∨ nuc = "t"%char) then 3%Z
  else 0%Z.

(** The lower-case letter String() writes for a byte appended. *)
Definition base_letter (nuc : byte) : byte :=
  if bool_decide (nuc = "C"%char ∨ nuc = "c"%char) then "c"%char
  else if bool_decide (nuc = "G"%char ∨ nuc = "g"%char) then "g"%char
  else if bool_decide (nuc = "T"%char ∨ nuc = "t"%char) then "t"%char
  else "a"%char.

(** The number a run of bases denotes in base four, first base first. *)
Fixpoint base4 (s : list byte) : Z :=
  match s with
  | [] => 0%Z
  | c :: s' => (base_code c * 4 ^ Z.of_nat (length s') + base4 s')%Z
  end.

(** The k-mer obtained by appending the bytes of [s], in order. *)
Definition append_all (b : kmer.BaseKmer) (km : Z) (s : list byte) : Z :=
  foldl (kmer.AppendBase b) km s.

(** ** Sample inputs *)

Definition text (ls : list string) : list byte := unlines (map bytes ls).

Definition two_fasta : list byte := text [">s1"; "ACGTACGT"; ">s2"; "TTTT"].
Definition two_fastq : list byte :=
  text ["@r1"; "ACGT"; "+"; "!!!!"; "@r2"; "GGGG"; "+"; "IIII"].

(** ** Auxiliary definitions for the statements *)

(** What Open builds before it looks at the first byte. *)
Definition fresh_fasta (fl : goseq.file) : Fasta.reader :=
  Fasta.mkReader false (bufio.NewReader (goseq.data fl) (goseq.data_err fl))
                 (Some errNotStarted) [] [].

(** os.Open succeeds and, for a name ending in .gz, so does
    gzip.NewReader. *)
Definition stream_opens (fl : goseq.file) : Prop :=
  goseq.open_err fl = None ∧
  (goseq.HasSuffix (goseq.filename fl) ".gz" = true → goseq.gzip_err fl = None).

(** A readable file that is neither FASTA nor FASTQ. *)
Definition not_a_sequence_file : goseq.file :=
  goseq.plain_file (text ["hello world"; "second line"]).

(** A zero-byte file whose name ends in ".gz": gzip.NewReader finds no
    header to read and returns io.EOF. *)
Definition empty_gz_file : goseq.file :=
  goseq.mkFile "reads.fasta.gz" None (Some io_EOF) [] io_EOF.

(** A FASTA file whose only sequence line holds one byte more than the
    read buffer. *)
Definition long_line_fasta : list byte :=
  bytes ">s" ++ [nl] ++ replicate 4097 "A"%char ++ [nl].

(** A FASTA file of two records whose second header line, 4179 bytes
    with its marker, is longer than the read buffer and holds a '>'. *)
Definition long_header : list byte :=
  replicate 4175 "x"%char ++ bytes ">yz".

Definition long_header_fasta : list byte :=
  text [">s1"; "ACGT"] ++ gt :: long_header ++ [nl] ++ text ["GG"].

(** The bytes Next() consumes before the line it keeps as the identifier
    line: what it skipped. *)
Definition skipped_by_Next (f : Fastq.reader) : option (list byte) :=
  '(ok, f') ← Fastq.Next f;
  Some (take (length (bufio.unread (Fastq.br f))
              - length (bufio.unread (Fastq.br f'))
              - length (Fastq.identifierBytes f'))
             (bufio.unread (Fastq.br f))).

(** The number of bytes of a text that are not line terminators. *)
Definition payload_bytes (l : list byte) : nat :=
  length (filter (λ c, c ≠ nl) l).

(** A stray line: no terminator inside, not starting with '@'. *)
Definition stray_line (l : list byte) : Prop :=
  (nl ∉ l) ∧ starts_with at_sign l = false.

Global Instance stray_line_dec l : Decision (stray_line l).
Proof. unfold stray_line. apply _. Defined.

(** A FASTQ decoder that has just returned a sequence of [n] bytes and is
    positioned after the separator line, with [rest] still unread. *)
Definition after_sequence (n : nat) (rest : list byte) : Fastq.reader :=
  Fastq.mkReader false (bufio.NewReader rest io_EOF)
                 (bytes "@r1" ++ [nl]) n (bytes "+" ++ [nl]) None.

(** Blank and stray lines between a quality line and the next header. *)
Definition stray_fastq_rest : list byte :=
  text ["!!!!"; ""; "junk"; "@r2"; "GGGG"; "+"; "IIII"].

(** A valid two-record FASTQ file whose first quality block is wrapped so
    that its second line holds a quality byte '@' in third place. *)
Definition wrapped_quality_fastq : list byte :=
  text ["@r1"; "ACGTA"; "+"; "!!"; "!!@"; "@r2"; "GGGG"; "+"; "IIII"].

(** A two-record FASTQ file whose first read is empty: an empty sequence
    line and an empty quality line. *)
Definition empty_read_fastq : list byte :=
  text ["@r1"; ""; "+"; ""; "@r2"; "GGGG"; "+"; "IIII"].

(** The first FASTQ record of a file: Next(), Identifier(), Sequence(). *)
Definition first_fastq_record (input : list byte)
  : option (list byte * list byte * Fastq.reader) :=
  let f0 := Fastq.fastqOpenFrom (fresh_fasta (goseq.plain_file input)) in
  '(ok, f1) ← Fastq.Next f0;
  id ← Fastq.Identifier f1;
  '(s, f2) ← Fastq.Sequence f1;
  Some (id, s, f2).

(** The sharding rule in the specification's words: of the records that
    arrive with indices [k], [k+1], ..., those whose index is [d] modulo
    [n], in arrival order. *)
Fixpoint assigned (n d k : nat) (rs : list fq2fa.Seq) : list fq2fa.Seq :=
  match rs with
  | [] => []
  | s :: rs' =>
      if decide (k mod n = d) then s :: assigned n d (S k) rs'
      else assigned n d (S k) rs'
  end.

(** Four records r0..r3. *)
Definition four_records : list fq2fa.Seq :=
  [fq2fa.mkSeq (bytes "r0") (bytes "A"); fq2fa.mkSeq (bytes "r1") (bytes "C");
   fq2fa.mkSeq (bytes "r2") (bytes "G"); fq2fa.mkSeq (bytes "r3") (bytes "T")].

(** The lines seqWriter writes for a sequence: pieces of 80 bytes while
    more than 80 bytes are left, then the rest. *)
Fixpoint chunks (fuel : nat) (s : list byte) : list (list byte) :=
  if decide (80 < length s) then
    match fuel with
    | 0 => [s]
    | S fuel' => take 80 s :: chunks fuel' (drop 80 s)
    end
  else [s].

Definition wrapped_lines (s : list byte) : list (list byte) :=
  chunks (length s) s.

(** A FASTA text given by its records: identifier and sequence lines. *)
Definition render_record (r : list byte * list (list byte)) : list byte :=
  gt :: r.1 ++ [nl] ++ unlines r.2.

Definition render (recs : list (list byte * list (list byte))) : list byte :=
  concat (map render_record recs).

(** The record such a text denotes. *)
Definition to_Seq (r : list byte * list (list byte)) : fq2fa.Seq :=
  fq2fa.mkSeq r.1 (concat r.2).

(** The FASTA text seqWriter produces is the text of these records. *)
Definition wrapped (s : fq2fa.Seq) : list byte * list (list byte) :=
  (fq2fa.Identifier s, wrapped_lines (fq2fa.Sequence s)).

(** A sequence line the decoder reads whole: it has no terminator inside,
    fits in a buffer of [B] bytes together with its terminator, and does
    not start with the record marker. *)
Definition fasta_line_ok (B : nat) (l : list byte) : Prop :=
  (nl ∉ l) ∧ length l < B ∧ starts_with gt l = false.

(** A record of a valid FASTA text: the header line fits in the buffer
    and every sequence line is well formed. *)
Definition fasta_record_ok (B : nat) (r : list byte * list (list byte)) : Prop :=
  (nl ∉ r.1) ∧ length r.1 + 2 ≤ B ∧ Forall (fasta_line_ok B) r.2.

(** Validity for the round trip: moreover no sequence line holds the
    record marker at all. *)
Definition fasta_record_plain (B : nat) (r : list byte * list (list byte)) : Prop :=
  fasta_record_ok B r ∧ Forall (λ l, gt ∉ l) r.2.

Global Instance fasta_line_ok_dec B l : Decision (fasta_line_ok B l).
Proof. unfold fasta_line_ok. apply _. Defined.
Global Instance fasta_record_ok_dec B r : Decision (fasta_record_ok B r).
Proof. unfold fasta_record_ok. apply _. Defined.
Global Instance fasta_record_plain_dec B r : Decision (fasta_record_plain B r).
Proof. unfold fasta_record_plain. apply _. Defined.

(** A FASTA reader over a file, with buffer size [B], in the middle of
    its text: the identifier line it holds, the last line read, the bytes
    still unread and the last error. *)
Definition fasta_state (B : nat) (cl : bool) (idl lb rest : list byte)
    (e : option error) : Fasta.reader :=
  Fasta.mkReader cl (bufio.mkReader B rest io_EOF) e idl lb.

(** A small valid FASTA text, its second record wrapped in two lines. *)
Definition sample_records : list (list byte * list (list byte)) :=
  [(bytes "s1", [bytes "ACGTACGT"]); (bytes "s2", [bytes "TT"; bytes "TT"])].

(** The state in which the resynchronisation of Next() ends: [ln] is kept
    as the identifier line, [more] is unread, and the last error is nil if
    [ln] was terminated and the error of the source otherwise. *)
Definition resynced (f : Fastq.reader) (ln more : list byte) (found : bool)
  : Fastq.reader :=
  Fastq.mkReader (Fastq.closed f) (bufio.with_unread (Fastq.br f) more) ln
                 (Fastq.lastSeqLen f) (Fastq.lastBytes f)
                 (if found then None else Some (bufio.src_err (Fastq.br f))).

(** A text whose last line, if any, is terminated. *)
Definition terminated (l : list byte) : Prop :=
  l = [] ∨ last l = Some nl.

(** The error SequenceBytes() returns for the last error of the reader:
    io.EOF is not reported. *)
Definition returned_error (e : option error) : option error :=
  if decide (e = Some io_EOF) then None else e.

(** What SequenceBytes() does where Sequence() returns [s] and leaves the
    reader [f']: the same, unless the data ended in an unterminated piece
    of more than one byte, which Sequence() ignores. *)
Definition bytes_outcome (s : list byte) (f' : Fasta.reader)
  : option error * list byte * Fasta.reader :=
  match Fasta.lastErr f' with
  | None => (None, s, f')
  | Some x =>
      let ln := Fasta.lastBytes f' in
      if decide (1 < length ln) then
        if starts_with gt ln then
          (None, s, Fasta.mkReader (Fasta.closed f') (Fasta.br f') (Fasta.lastErr f')
                                   ln ln)
        else (returned_error (Some x), s ++ drop_last ln, f')
      else (returned_error (Some x), s, f')
  end.

(** A FASTQ text given by its records: identifier, sequence lines, what
    follows '+' on the separator line, and quality lines. *)
Record fastq_record : Type := mkFastq {
  fq_id : list byte;
  fq_seq : list (list byte);
  fq_sep : list byte;
  fq_qual : list (list byte)
}.

Definition render_fastq_record (r : fastq_record) : list byte :=
  at_sign :: fq_id r ++ nl :: unlines (fq_seq r)
    ++ plus :: fq_sep r ++ nl :: unlines (fq_qual r).

Definition render_fastq (recs : list fastq_record) : list byte :=
  concat (map render_fastq_record recs).

Definition fastq_to_Seq (r : fastq_record) : fq2fa.Seq :=
  fq2fa.mkSeq (fq_id r) (concat (fq_seq r)).

(** A sequence line of a FASTQ record: no terminator inside, fits in a
    buffer of [B] bytes with its terminator, does not start with '+'. *)
Definition fastq_line_ok (B : nat) (l : list byte) : Prop :=
  (nl ∉ l) ∧ length l < B ∧ starts_with plus l = false.

(** The quality block holds as many quality bytes as the sequence; it is
    one line, or it holds no '@'. *)
Definition fastq_quality_ok (n : nat) (qs : list (list byte)) : Prop :=
  Forall (λ q, nl ∉ q) qs ∧ length (concat qs) = n ∧ 0 < n ∧
  (length qs = 1 ∨ Forall (λ q, at_sign ∉ q) qs).

Definition fastq_record_ok (B : nat) (r : fastq_record) : Prop :=
  (nl ∉ fq_id r) ∧
  Forall (fastq_line_ok B) (fq_seq r) ∧
  (nl ∉ fq_sep r) ∧ length (fq_sep r) + 2 ≤ B ∧
  fastq_quality_ok (length (concat (fq_seq r))) (fq_qual r).

Global Instance fastq_line_ok_dec B l : Decision (fastq_line_ok B l).
Proof. unfold fastq_line_ok. apply _. Defined.
Global Instance fastq_quality_ok_dec n qs : Decision (fastq_quality_ok n qs).
Proof. unfold fastq_quality_ok. apply _. Defined.
Global Instance fastq_record_ok_dec B r : Decision (fastq_record_ok B r).
Proof. unfold fastq_record_ok. apply _. Defined.

(** A FASTQ reader over a file, with buffer size [B]. *)
Definition fastq_state (B : nat) (cl : bool) (idl : list byte) (n : nat)
    (lb rest : list byte) (e : option error) : Fastq.reader :=
  Fastq.mkReader cl (bufio.mkReader B rest io_EOF) idl n lb e.

(** Two FASTQ records, the second with wrapped sequence and quality. *)
Definition sample_fastq : list fastq_record :=
  [mkFastq (bytes "r1") [bytes "ACGT"] [] [bytes "!!@!"];
   mkFastq (bytes "r2") [bytes "GG"; bytes "GGA"] (bytes "r2") [bytes "III"; bytes "II"]].

(** ** File names: stripExtenstions *)

Definition dot : byte := "."%char.
Definition slash : byte := "/"%char.

(** os.IsPathSeparator, on Unix. *)
Definition IsPathSeparator (c : byte) : bool := bool_decide (c = slash).

(** filepath.Ext:
    [for i := len(path)-1; i >= 0 && !os.IsPathSeparator(path[i]); i-- {
       if path[i] == '.' { return path[i:] } }; return ""];
    [n] is [i+1]. *)
Fixpoint Ext_loop (n : nat) (path : list byte) : list byte :=
  match n with
  | 0 => []
  | S i =>
      match path !! i with
      | Some c =>
          if IsPathSeparator c then []
          else if bool_decide (c = dot) then drop i path
          else Ext_loop i path
      | None => []
      end
  end.

Definition Ext (path : list byte) : list byte := Ext_loop (length path) path.

(** strings.HasSuffix and strings.TrimSuffix. *)
Definition HasSuffix (s suffix : list byte) : bool :=
  bool_decide (length suffix ≤ length s ∧ drop (length s - length suffix) s = suffix).

Definition TrimSuffix (s suffix : list byte) : list byte :=
  if HasSuffix s suffix then take (length s - length suffix) s else s.

(** [for ext != "" { fn = strings.TrimSuffix(fn, ext); ext = filepath.Ext(fn) }] *)
Fixpoint stripExtenstions_loop (fuel : nat) (fn ext : list byte)
  : option (list byte) :=
  if decide (ext = []) then Some fn
  else
    match fuel with
    | 0 => None
    | S fuel' =>
        let fn' := TrimSuffix fn ext in
        stripExtenstions_loop fuel' fn' (Ext fn')
    end.

Definition stripExtenstions (fn : list byte) : option (list byte) :=
  stripExtenstions_loop (length fn) fn (Ext fn).

(** A record the writer can write so that the decoder reads it back: the
    identifier is one line that fits in a buffer of [B] bytes with its
    marker and terminator, and the sequence holds neither a terminator nor
    the record marker. *)
Definition seq_ok (B : nat) (s : fq2fa.Seq) : Prop :=
  (nl ∉ fq2fa.Identifier s) ∧ length (fq2fa.Identifier s) + 2 ≤ B ∧
  (nl ∉ fq2fa.Sequence s) ∧ (gt ∉ fq2fa.Sequence s).

Global Instance seq_ok_dec B s : Decision (seq_ok B s).
Proof. unfold seq_ok. apply _. Defined.

(** A piece of a line that fills the read buffer: [B] bytes without a
    terminator, not starting with [c]. *)
Definition full_chunk (B : nat) (c : byte) (chunk : list byte) : Prop :=
  length chunk = B ∧ (nl ∉ chunk) ∧ starts_with c chunk = false.

Global Instance full_chunk_dec B c chunk : Decision (full_chunk B c chunk).
Proof. unfold full_chunk. apply _. Defined.

(** * Properties *)

(** ** The decoding scenarios of the specification *)

Example convert_two_fasta :
  fq2fa.convertFile (goseq.plain_file two_fasta)
  = Some [fq2fa.mkSeq (bytes "s1") (bytes "ACGTACGT"); fq2fa.mkSeq (bytes "s2") (bytes "TTTT")].
Proof. vm_compute. reflexivity. Qed.

Example convert_two_fastq :
  fq2fa.convertFile (goseq.plain_file two_fastq)
  = Some [fq2fa.mkSeq (bytes "r1") (bytes "ACGT"); fq2fa.mkSeq (bytes "r2") (bytes "GGGG")].
Proof. vm_compute. reflexivity. Qed.

(** ** Facts about the buffered reader *)

Section bufio_facts.
Import bufio.

Lemma read_line_split l :
  ∀ ln rest found, read_line l = (ln, rest, found) →
    l = ln ++ rest ∧
    (found = true → ∃ body, ln = body ++ [nl] ∧ nl ∉ body) ∧
    (found = false → rest = [] ∧ nl ∉ ln).
Proof.
  induction l as [|c l IH]; intros ln rest found; simpl.
  - intros [= <- <- <-]. split_and!; [done | done | intros _; split; [done | apply not_elem_of_nil]].
  - destruct (decide (c = nl)) as [->|Hc].
    + intros [= <- <- <-]. split_and!; [done | | done].
      intros _. exists []. split; [done | apply not_elem_of_nil].
    + destruct (read_line l) as [[ln' rest'] found'] eqn:E.
      intros [= <- <- <-]. destruct (IH _ _ _ eq_refl) as (Hl & Ht & Hf).
      split_and!.
      * by rewrite Hl at 1.
      * intros Hfd. destruct (Ht Hfd) as (body & -> & Hb).
        exists (c :: body). split; [done|]. rewrite not_elem_of_cons. done.
      * intros Hfd. destruct (Hf Hfd) as [-> Hn]. split; [done|].
        rewrite not_elem_of_cons. done.
Qed.

Lemma read_line_terminated body rest :
  nl ∉ body → read_line (body ++ nl :: rest) = (body ++ [nl], rest, true).
Proof.
  induction body as [|c body IH]; simpl; intros Hn.
  - done.
  - apply not_elem_of_cons in Hn as [Hc Hn]. rewrite decide_False by done.
    by rewrite IH.
Qed.

Lemma read_line_unterminated l :
  nl ∉ l → read_line l = (l, [], false).
Proof.
  induction l as [|c l IH]; simpl; intros Hn; [done|].
  apply not_elem_of_cons in Hn as [Hc Hn]. rewrite decide_False by done.
  by rewrite IH.
Qed.

(** What a read returns is a prefix of the unread bytes, and what stays
    unread is the rest. *)
Lemma ReadBytes_split b ln e b' :
  ReadBytes b = (ln, e, b') →
  unread b = ln ++ unread b' ∧ buf_size b' = buf_size b ∧ src_err b' = src_err b.
Proof.
  unfold ReadBytes. destruct (read_line (unread b)) as [[l r] fd] eqn:E.
  intros [= <- <- <-]. by destruct (read_line_split _ _ _ _ E) as (-> & _).
Qed.

Lemma ReadSlice_split b ln e b' :
  ReadSlice b = (ln, e, b') →
  unread b = ln ++ unread b' ∧ buf_size b' = buf_size b ∧ src_err b' = src_err b.
Proof.
  unfold ReadSlice.
  destruct (read_line (take (buf_size b) (unread b))) as [[l r] fd] eqn:E.
  destruct (read_line_split _ _ _ _ E) as (Hl & _).
  destruct fd.
  - intros [= <- <- <-]. simpl. split; [|done].
    rewrite <- (take_drop (buf_size b) (unread b)) at 1 2.
    rewrite Hl. rewrite <- app_assoc. rewrite drop_app_length. done.
  - case_decide; intros [= <- <- <-]; simpl.
    + by rewrite take_drop.
    + by rewrite app_nil_r.
Qed.

(** The only errors of ReadSlice are the full buffer and the error of the
    source. *)
Lemma ReadSlice_err b ln e b' :
  ReadSlice b = (ln, e, b') →
  e = None ∨ e = Some ErrBufferFull ∨ e = Some (src_err b).
Proof.
  unfold ReadSlice.
  destruct (read_line (take (buf_size b) (unread b))) as [[l r] fd].
  destruct fd; [|case_decide]; intros [= <- <- <-]; auto.
Qed.

(** A line that fits in the buffer is returned whole by ReadSlice. *)
Lemma ReadSlice_line b body rest :
  nl ∉ body → length body < buf_size b → unread b = body ++ nl :: rest →
  ReadSlice b = (body ++ [nl], None, with_unread b rest).
Proof.
  intros Hn Hlen Hu. unfold ReadSlice. rewrite Hu.
  rewrite take_app_ge by lia.
  replace (buf_size b - length body) with (S (buf_size b - length body - 1)) by lia.
  rewrite firstn_cons. rewrite read_line_terminated by done.
  replace (body ++ nl :: rest) with ((body ++ [nl]) ++ rest)
    by (by rewrite <- app_assoc).
  by rewrite drop_app_length.
Qed.

(** A buffer filled before any terminator is returned as it is, with
    ErrBufferFull. *)
Lemma ReadSlice_full b chunk rest :
  nl ∉ chunk → length chunk = buf_size b → unread b = chunk ++ rest →
  ReadSlice b = (chunk, Some ErrBufferFull, with_unread b rest).
Proof.
  intros Hn Hlen Hu. unfold ReadSlice. rewrite Hu, <- Hlen.
  rewrite take_app_length, drop_app_length.
  rewrite read_line_unterminated by done.
  rewrite decide_True; [done|]. rewrite length_app. lia.
Qed.

(** At the end of the data ReadSlice reports the source's error. *)
Lemma ReadSlice_end b :
  0 < buf_size b → unread b = [] →
  ReadSlice b = ([], Some (src_err b), with_unread b []).
Proof.
  intros HB Hu. unfold ReadSlice. rewrite Hu. rewrite take_nil. simpl.
  case_decide; [lia | done].
Qed.

Lemma ReadBytes_line b body rest :
  nl ∉ body → unread b = body ++ nl :: rest →
  ReadBytes b = (body ++ [nl], None, with_unread b rest).
Proof.
  intros Hn Hu. unfold ReadBytes. rewrite Hu. by rewrite read_line_terminated.
Qed.

Lemma ReadBytes_last b l :
  nl ∉ l → unread b = l →
  ReadBytes b = (l, Some (src_err b), with_unread b []).
Proof.
  intros Hn Hu. unfold ReadBytes. rewrite Hu. by rewrite read_line_unterminated.
Qed.

End bufio_facts.

(** ** Sequence() always returns *)

Lemma Fasta_Sequence_loop_total fuel :
  ∀ f acc, length (bufio.unread (Fasta.br f)) < fuel →
    is_Some (Fasta.Sequence_loop fuel f acc).
Proof.
  induction fuel as [|fuel IH]; intros f acc Hlen; [lia|].
  cbn [Fasta.Sequence_loop].
  destruct (bufio.ReadSlice (Fasta.br f)) as [[ln e] b] eqn:E.
  destruct (ReadSlice_split _ _ _ _ E) as (Hu & _).
  destruct (if decide (e = Some ErrBufferFull) then None else e); [by eexists|].
  destruct ln as [|c ln]; [by eexists|].
  case_decide; [by eexists|].
  apply IH. cbn. rewrite Hu in Hlen. rewrite length_app in Hlen. simpl in Hlen. lia.
Qed.

Lemma Fasta_Sequence_total f : is_Some (Fasta.Sequence f).
Proof. apply Fasta_Sequence_loop_total. lia. Qed.

Lemma Fastq_Sequence_loop_total fuel :
  ∀ f acc, length (bufio.unread (Fastq.br f)) < fuel →
    is_Some (Fastq.Sequence_loop fuel f acc).
Proof.
  induction fuel as [|fuel IH]; intros f acc Hlen; [lia|].
  cbn [Fastq.Sequence_loop].
  destruct (bufio.ReadSlice (Fastq.br f)) as [[ln e] b] eqn:E.
  destruct (ReadSlice_split _ _ _ _ E) as (Hu & _).
  destruct (if decide (e = Some ErrBufferFull) then None else e); [by eexists|].
  destruct ln as [|c ln]; [by eexists|].
  case_decide; [by eexists|].
  apply IH. cbn. rewrite Hu in Hlen. rewrite length_app in Hlen. simpl in Hlen. lia.
Qed.

Lemma Fastq_Sequence_total f : is_Some (Fastq.Sequence f).
Proof. apply Fastq_Sequence_loop_total. lia. Qed.

Lemma goseq_Sequence_total r : is_Some (goseq.Sequence r).
Proof.
  destruct r as [f|f]; simpl.
  - destruct (Fasta_Sequence_total f) as [[s f'] ->]. by eexists.
  - destruct (Fastq_Sequence_total f) as [[s f'] ->]. by eexists.
Qed.

(** Sequence() overwrites the last error with the outcome of its last
    read: nil, or the error of the source. *)
Lemma Fasta_Sequence_loop_err fuel :
  ∀ f acc s f', Fasta.Sequence_loop fuel f acc = Some (s, f') →
    Fasta.lastErr f' = None ∨
    Fasta.lastErr f' = Some (bufio.src_err (Fasta.br f)).
Proof.
  induction fuel as [|fuel IH]; intros f acc s f'; [done|].
  cbn [Fasta.Sequence_loop].
  destruct (bufio.ReadSlice (Fasta.br f)) as [[ln e] b] eqn:E.
  destruct (ReadSlice_split _ _ _ _ E) as (_ & _ & Hsrc).
  destruct (ReadSlice_err _ _ _ _ E) as [->|[->| ->]].
  - rewrite decide_False by done. destruct ln as [|c ln].
    + intros [= <- <-]. by left.
    + case_decide.
      * intros [= <- <-]. by left.
      * intros H'. apply IH in H'. cbn in H'. by rewrite Hsrc in H'.
  - rewrite decide_True by done. destruct ln as [|c ln].
    + intros [= <- <-]. by left.
    + case_decide.
      * intros [= <- <-]. by left.
      * intros H'. apply IH in H'. cbn in H'. by rewrite Hsrc in H'.
  - case_decide as Hd.
    + destruct ln as [|c ln].
      * intros [= <- <-]. by left.
      * case_decide.
        -- intros [= <- <-]. by left.
        -- intros H'. apply IH in H'. cbn in H'. by rewrite Hsrc in H'.
    + intros [= <- <-]. by right.
Qed.

Lemma Fastq_Sequence_loop_err fuel :
  ∀ f acc s f', Fastq.Sequence_loop fuel f acc = Some (s, f') →
    Fastq.lastErr f' = None ∨
    Fastq.lastErr f' = Some (bufio.src_err (Fastq.br f)).
Proof.
  induction fuel as [|fuel IH]; intros f acc s f'; [done|].
  cbn [Fastq.Sequence_loop].
  destruct (bufio.ReadSlice (Fastq.br f)) as [[ln e] b] eqn:E.
  destruct (ReadSlice_split _ _ _ _ E) as (_ & _ & Hsrc).
  destruct (ReadSlice_err _ _ _ _ E) as [->|[->| ->]].
  - rewrite decide_False by done. destruct ln as [|c ln].
    + intros [= <- <-]. by left.
    + case_decide.
      * intros [= <- <-]. by left.
      * intros H'. apply IH in H'. cbn in H'. by rewrite Hsrc in H'.
  - rewrite decide_True by done. destruct ln as [|c ln].
    + intros [= <- <-]. by left.
    + case_decide.
      * intros [= <- <-]. by left.
      * intros H'. apply IH in H'. cbn in H'. by rewrite Hsrc in H'.
  - case_decide as Hd.
    + destruct ln as [|c ln].
      * intros [= <- <-]. by left.
      * case_decide.
        -- intros [= <- <-]. by left.
        -- intros H'. apply IH in H'. cbn in H'. by rewrite Hsrc in H'.
    + intros [= <- <-]. by right.
Qed.

(** ** Open and the first byte *)

Lemma Open_stream fl :
  stream_opens fl →
  goseq.Open fl =
    match goseq.data fl with
    | [] => (Some (goseq.FastaReader (fresh_fasta fl)), Some (goseq.data_err fl))
    | c :: _ =>
        if decide (c = at_sign)
        then (Some (goseq.FastqReader (Fastq.fastqOpenFrom (fresh_fasta fl))), None)
        else (Some (goseq.FastaReader (fresh_fasta fl)), None)
    end.
Proof.
  intros [Ho Hz]. unfold goseq.Open. rewrite Ho.
  destruct (goseq.HasSuffix (goseq.filename fl) ".gz").
  - rewrite Hz by done. unfold bufio.Peek1, fresh_fasta. cbn.
    by destruct (goseq.data fl).
  - unfold bufio.Peek1, fresh_fasta. cbn. by destruct (goseq.data fl).
Qed.

Lemma ReadBytes_first_byte b c rest ln e b' :
  bufio.unread b = c :: rest → bufio.ReadBytes b = (ln, e, b') →
  ∃ ln', ln = c :: ln'.
Proof.
  unfold bufio.ReadBytes. intros ->. simpl.
  destruct (decide (c = nl)).
  - intros [= <- _ _]. by eexists.
  - destruct (bufio.read_line rest) as [[l r] fd]. intros [= <- _ _]. by eexists.
Qed.

(** C1 (as stated, refuted): a file starting with 'h' is opened without
    any error and a decoder is returned. *)
Lemma Open_unrecognized_accepted :
  head (goseq.data not_a_sequence_file) = Some "h"%char ∧
  ∃ r, goseq.Open not_a_sequence_file = (Some r, None).
Proof. split; [reflexivity|]. eexists. vm_compute. reflexivity. Qed.

(** C1 (amended): when the first byte of a readable file is neither '>'
    nor '@', Open reports no error and returns the FASTA decoder; the
    first Next() on it returns false, so the file yields no record.  Only
    OpenFastq rejects the file, with "goseq: not a fastq file" and no
    decoder. *)
Theorem Open_other_first_byte fl c rest :
  stream_opens fl → goseq.data fl = c :: rest → c ≠ gt → c ≠ at_sign →
  goseq.Open fl = (Some (goseq.FastaReader (fresh_fasta fl)), None) ∧
  (Fasta.Next (fresh_fasta fl)).1 = false ∧
  goseq.OpenFastq fl = (None, Some errNotFastq).
Proof.
  intros Hs Hd Hgt Hat. split_and!.
  - rewrite Open_stream by done. rewrite Hd. by rewrite decide_False.
  - unfold Fasta.Next. cbn [fresh_fasta Fasta.lastErr Fasta.br Fasta.closed Fasta.lastBytes].
    destruct (decide (Some errNotStarted = Some errNotStarted)) as [_|]; [|done].
    destruct (bufio.ReadBytes _) as [[ln e] b] eqn:E.
    eapply ReadBytes_first_byte in E as [ln' ->]; [|exact Hd].
    cbn. repeat case_decide; try done.
  - destruct Hs as [Ho Hz]. unfold goseq.OpenFastq. rewrite Ho.
    destruct (goseq.HasSuffix _ _); [rewrite Hz by done|];
      unfold bufio.Peek1; cbn; rewrite Hd; by rewrite decide_True.
Qed.

Lemma Open_other_first_byte_witness :
  goseq.Open not_a_sequence_file
    = (Some (goseq.FastaReader (fresh_fasta not_a_sequence_file)), None) ∧
  (Fasta.Next (fresh_fasta not_a_sequence_file)).1 = false ∧
  goseq.OpenFastq not_a_sequence_file = (None, Some errNotFastq).
Proof.
  apply (Open_other_first_byte not_a_sequence_file "h"%char
           (tail (goseq.data not_a_sequence_file))).
  - split; [reflexivity | intros H; vm_compute in H; discriminate].
  - reflexivity.
  - discriminate.
  - discriminate.
Defined.

(** C10 (as stated, refuted): a zero-byte file named *.gz is handed to
    gzip.NewReader, which fails with io.EOF, and Open returns that error
    with no reader at all. *)
Lemma Open_empty_gz_no_reader :
  goseq.data empty_gz_file = [] ∧
  goseq.Open empty_gz_file = (None, Some io_EOF).
Proof. split; reflexivity. Qed.

(** C10 (amended): on a file that can be opened and holds no data, Open
    returns no reader when the gzip transform applies and rejects the
    file (the name ends in ".gz"; for a zero-byte file gzip.NewReader
    fails with io.EOF), together with that error; in every other case it
    returns the FASTA decoder together with the error the stream ends
    with (io.EOF for a plain file), never a format error, and Next() on
    that decoder returns false. *)
Theorem Open_empty_file fl :
  goseq.open_err fl = None → goseq.data fl = [] →
  match (if goseq.HasSuffix (goseq.filename fl) ".gz"
         then goseq.gzip_err fl else None) with
  | Some e => goseq.Open fl = (None, Some e)
  | None =>
      goseq.Open fl = (Some (goseq.FastaReader (fresh_fasta fl)),
                       Some (goseq.data_err fl)) ∧
      ∃ r', goseq.Next (goseq.FastaReader (fresh_fasta fl)) = Some (false, r')
  end.
Proof.
  intros Ho Hd.
  assert (∃ r', goseq.Next (goseq.FastaReader (fresh_fasta fl)) = Some (false, r'))
    as HN.
  { unfold goseq.Next, fresh_fasta. rewrite Hd.
    destruct (goseq.data_err fl); eexists; vm_compute; reflexivity. }
  destruct (goseq.HasSuffix (goseq.filename fl) ".gz") eqn:Hsuf.
  - destruct (goseq.gzip_err fl) as [e|] eqn:Hgz.
    + unfold goseq.Open. by rewrite Ho, Hsuf, Hgz.
    + split; [|done]. rewrite Open_stream by (by split). by rewrite Hd.
  - split; [|done]. rewrite Open_stream; [by rewrite Hd|].
    split; [done|]. by rewrite Hsuf.
Qed.

Lemma Open_empty_file_witness :
  (goseq.Open (goseq.plain_file [])
   = (Some (goseq.FastaReader (fresh_fasta (goseq.plain_file []))), Some io_EOF) ∧
   ∃ r', goseq.Next (goseq.FastaReader (fresh_fasta (goseq.plain_file [])))
         = Some (false, r')) ∧
  goseq.Open empty_gz_file = (None, Some io_EOF).
Proof.
  split.
  - exact (Open_empty_file (goseq.plain_file []) eq_refl eq_refl).
  - exact (Open_empty_file empty_gz_file eq_refl eq_refl).
Defined.

(** C9 (as stated, refuted): on a freshly opened decoder Identifier()
    panics instead of reporting an error, and Sequence() reads from the
    stream and clears the "not started" error although Next() was never
    called. *)
Lemma fresh_reader_misuse_unguarded :
  ∃ r, goseq.Open (goseq.plain_file two_fasta) = (Some r, None) ∧
       goseq.Identifier r = None ∧
       ∃ s r', goseq.Sequence r = Some (s, r') ∧ goseq.Err r' = None.
Proof.
  eexists. split; [vm_compute; reflexivity|]. split; [reflexivity|].
  eexists _, _. split; vm_compute; reflexivity.
Qed.

(** C9 (amended): a freshly opened decoder has the "Next() not yet
    called" error as its last error, which Err() reports; Identifier()
    and Sequence() do not check it: Identifier() panics on the empty
    identifier buffer, and Sequence() reads from the stream, returns a
    result and replaces the last error by the outcome of its last read. *)
Theorem fresh_reader_state fl r e :
  goseq.Open fl = (Some r, e) →
  goseq.data_err fl ≠ errNotStarted →
  goseq.Err r = Some errNotStarted ∧
  goseq.Identifier r = None ∧
  ∃ s r', goseq.Sequence r = Some (s, r') ∧ goseq.Err r' ≠ Some errNotStarted.
Proof.
  intros Ho Hsrc.
  assert (r = goseq.FastaReader (fresh_fasta fl) ∨
          r = goseq.FastqReader (Fastq.fastqOpenFrom (fresh_fasta fl))) as Hr.
  { unfold goseq.Open in Ho.
    destruct (goseq.open_err fl); [done|].
    destruct (if goseq.HasSuffix _ _ then _ else _); [done|].
    unfold bufio.Peek1 in Ho. cbn in Ho. unfold fresh_fasta.
    destruct (goseq.data fl) as [|c [|c' l]]; cbn in Ho;
      try case_decide; simplify_eq; auto. }
  destruct Hr as [-> | ->]; (split; [done|]); (split; [done|]).
  - destruct (Fasta_Sequence_total (fresh_fasta fl)) as [[s f'] Hs].
    exists s, (goseq.FastaReader f'). cbn [goseq.Sequence goseq.Err]. rewrite Hs.
    split; [done|]. apply Fasta_Sequence_loop_err in Hs. cbn in Hs.
    unfold Fasta.Err. destruct Hs as [-> | ->]; congruence.
  - destruct (Fastq_Sequence_total (Fastq.fastqOpenFrom (fresh_fasta fl))) as [[s f'] Hs].
    exists s, (goseq.FastqReader f'). cbn [goseq.Sequence goseq.Err]. rewrite Hs.
    split; [done|]. apply Fastq_Sequence_loop_err in Hs. cbn in Hs.
    unfold Fastq.Err. destruct Hs as [-> | ->]; congruence.
Qed.

Lemma fresh_reader_state_witness :
  goseq.Err (goseq.FastaReader (fresh_fasta (goseq.plain_file two_fasta)))
    = Some errNotStarted ∧
  goseq.Identifier (goseq.FastaReader (fresh_fasta (goseq.plain_file two_fasta))) = None ∧
  ∃ s r', goseq.Sequence (goseq.FastaReader (fresh_fasta (goseq.plain_file two_fasta)))
            = Some (s, r') ∧
          goseq.Err r' ≠ Some errNotStarted.
Proof.
  apply (fresh_reader_state (goseq.plain_file two_fasta) _ None).
  - vm_compute. reflexivity.
  - discriminate.
Defined.

(** C2 (the code at the failing input): a sequence line of 4097 bytes,
    one more than the buffer holds, is decoded to 4096 bytes: the last
    byte of the full buffer is cut off as if it were the line terminator.
    Sequence() and SequenceBytes() agree on this. *)
Lemma long_line_loses_a_byte :
  fq2fa.convertFile (goseq.plain_file long_line_fasta)
    = Some [fq2fa.mkSeq (bytes "s") (replicate 4096 "A"%char)] ∧
  ∃ f', Fasta.SequenceBytes (Fasta.Next (fresh_fasta (goseq.plain_file long_line_fasta))).2
        = Some (None, replicate 4096 "A"%char, f').
Proof.
  split; [vm_compute; reflexivity|]. eexists. vm_compute. reflexivity.
Qed.

(** ** The FASTQ reader: skipping the quality block *)

(** Projections of explicit reader states, without unfolding the loops. *)
Ltac fq_proj :=
  cbn [Fastq.closed Fastq.br Fastq.identifierBytes Fastq.lastSeqLen
       Fastq.lastBytes Fastq.lastErr
       bufio.unread bufio.buf_size bufio.src_err bufio.with_unread
       mbind option_bind].

Section fastq_next.
Import bufio.

Lemma discard_loop_enough f :
  Fastq.lastErr f = None → 0 < Fastq.lastSeqLen f →
  Fastq.lastSeqLen f ≤ length (unread (Fastq.br f)) →
  Fastq.discard_loop (Fastq.lastSeqLen f) f =
    Some (Fastq.mkReader (Fastq.closed f)
            (with_unread (Fastq.br f) (drop (Fastq.lastSeqLen f) (unread (Fastq.br f))))
            (Fastq.identifierBytes f) 0 (Fastq.lastBytes f) None).
Proof.
  intros He Hpos Hle.
  destruct (Fastq.lastSeqLen f) as [|k] eqn:EL; [lia|].
  cbn [Fastq.discard_loop]. rewrite EL, He.
  rewrite !bool_decide_eq_true_2 by (done || lia). cbn [andb].
  unfold Discard. rewrite decide_False by lia. rewrite decide_True by lia.
  replace (S k - S k) with 0 by lia.
  destruct k; by cbn.
Qed.

Lemma resync_loop_done fuel f :
  match Fastq.identifierBytes f with
  | [] => True
  | c :: _ => c = at_sign ∨ Fastq.lastErr f ≠ None
  end →
  Fastq.resync_loop fuel f = Some f.
Proof.
  intros H. destruct fuel; cbn [Fastq.resync_loop];
    (destruct (Fastq.identifierBytes f) as [|c l]; [done|]);
    (destruct H as [->|H];
      [done | by rewrite (bool_decide_eq_false_2 (_ = None)), andb_false_r]).
Qed.

Lemma resync_loop_step fuel f c l :
  Fastq.identifierBytes f = c :: l → c ≠ at_sign → Fastq.lastErr f = None →
  Fastq.resync_loop (S fuel) f =
    let '(ln, e, b) := ReadBytes (Fastq.br f) in
    Fastq.resync_loop fuel
      (Fastq.mkReader (Fastq.closed f) b ln (Fastq.lastSeqLen f) (Fastq.lastBytes f) e).
Proof.
  intros Hid Hc He. cbn [Fastq.resync_loop]. rewrite Hid, He.
  by rewrite !bool_decide_eq_true_2.
Qed.

Lemma stray_line_head s :
  stray_line s → ∃ c l, s ++ [nl] = c :: l ∧ c ≠ at_sign.
Proof.
  intros [_ Hs]. destruct s as [|c s]; simpl.
  - by exists nl, [].
  - exists c, (s ++ [nl]). split; [done|]. simpl in Hs.
    by apply bool_decide_eq_false in Hs.
Qed.

Lemma length_unlines_ge strays : length strays ≤ length (unlines strays).
Proof.
  induction strays as [|s strays IH]; [done|].
  unfold unlines in *. simpl. rewrite !length_app. simpl. lia.
Qed.

Context (tail ln more : list byte) (found : bool).
Hypothesis Htail : read_line tail = (ln, more, found).
Hypothesis Hhdr : found = true → starts_with at_sign ln = true.

Lemma resync_loop_tail fuel f :
  unread (Fastq.br f) = tail →
  (let '(l, e, b) := ReadBytes (Fastq.br f) in
   Fastq.resync_loop fuel
     (Fastq.mkReader (Fastq.closed f) b l (Fastq.lastSeqLen f) (Fastq.lastBytes f) e))
  = Some (resynced f ln more found).
Proof.
  intros Hu. unfold ReadBytes. rewrite Hu, Htail.
  rewrite resync_loop_done; [done|]. cbn.
  destruct ln as [|c l]; [done|]. destruct found.
  - left. specialize (Hhdr eq_refl). simpl in Hhdr.
    by apply bool_decide_eq_true in Hhdr.
  - by right.
Qed.

Lemma resync_loop_strays strays :
  ∀ fuel f, unread (Fastq.br f) = unlines strays ++ tail →
    Forall stray_line strays → length strays ≤ fuel →
    (let '(l, e, b) := ReadBytes (Fastq.br f) in
     Fastq.resync_loop fuel
       (Fastq.mkReader (Fastq.closed f) b l (Fastq.lastSeqLen f) (Fastq.lastBytes f) e))
    = Some (resynced f ln more found).
Proof.
  induction strays as [|s strays IH]; intros fuel f Hu Hall Hfuel.
  - by apply resync_loop_tail.
  - apply Forall_cons in Hall as [Hs Hall].
    destruct fuel as [|fuel]; [simpl in Hfuel; lia|].
    unfold unlines in Hu. simpl in Hu. rewrite <- !app_assoc in Hu. simpl in Hu.
    fold (unlines strays) in Hu.
    rewrite (ReadBytes_line _ s _ (proj1 Hs) Hu).
    destruct (stray_line_head s Hs) as (c & l & Hcl & Hc).
    erewrite resync_loop_step; [|exact Hcl|exact Hc|done].
    set (f1 := Fastq.mkReader (Fastq.closed f)
                 (with_unread (Fastq.br f) (unlines strays ++ tail))
                 (s ++ [nl]) (Fastq.lastSeqLen f) (Fastq.lastBytes f) None).
    assert (length strays ≤ fuel) as Hfuel' by (simpl in Hfuel; lia).
    exact (IH fuel f1 eq_refl Hall Hfuel').
Qed.

End fastq_next.

(** Next() after a sequence has been returned, when the discard succeeds:
    the stray lines are consumed and the first line of [tail] is kept. *)
Lemma Fastq_Next_resync f strays tail ln more found :
  Fastq.lastErr f = None →
  0 < Fastq.lastSeqLen f →
  Fastq.lastSeqLen f ≤ length (bufio.unread (Fastq.br f)) →
  drop (Fastq.lastSeqLen f) (bufio.unread (Fastq.br f)) = unlines strays ++ tail →
  Forall stray_line strays →
  bufio.read_line tail = (ln, more, found) →
  (found = true → starts_with at_sign ln = true) →
  Fastq.Next f =
    Some (starts_with at_sign ln,
          Fastq.mkReader (Fastq.closed f) (bufio.with_unread (Fastq.br f) more) ln 0
                         (Fastq.lastBytes f)
                         (if found then None else Some (bufio.src_err (Fastq.br f)))).
Proof.
  intros He Hpos Hle Hu Hall Htail Hhdr.
  unfold Fastq.Next. rewrite He.
  rewrite (decide_False (P := None = Some errNotStarted)) by done.
  rewrite He.
  rewrite (decide_False (P := None = Some io_EOF)) by done.
  rewrite (decide_True (P := None = None)) by done.
  rewrite (decide_True (P := 0 < Fastq.lastSeqLen f)) by done.
  rewrite discard_loop_enough by done. fq_proj.
  rewrite (decide_True (P := None = None)) by done.
  rewrite Hu.
  destruct strays as [|s strays].
  - unfold bufio.ReadBytes. fq_proj. cbn [unlines map concat app]. rewrite Htail.
    rewrite resync_loop_done; [done|]. fq_proj.
    destruct ln as [|c l]; [done|]. destruct found.
    + left. specialize (Hhdr eq_refl). simpl in Hhdr.
      by apply bool_decide_eq_true in Hhdr.
    + by right.
  - apply Forall_cons in Hall as [Hs Hall].
    unfold unlines. cbn [map concat]. rewrite <- !app_assoc. cbn [app].
    fold (unlines strays).
    erewrite (ReadBytes_line _ s (unlines strays ++ tail) (proj1 Hs)); [|done].
    fq_proj.
    destruct (stray_line_head s Hs) as (c & l & Hcl & Hc).
    erewrite resync_loop_step; [|exact Hcl|exact Hc|done].
    erewrite (resync_loop_strays tail ln more found Htail Hhdr strays);
      [done | done | done |].
    rewrite length_app. pose proof (length_unlines_ge strays). lia.
Qed.



Example wrapped_quality_run :
  fq2fa.convertFile (goseq.plain_file wrapped_quality_fastq)
  = Some [fq2fa.mkSeq (bytes "r1") (bytes "ACGTA"); fq2fa.mkSeq [] (bytes "@r2GGGG")].
Proof. vm_compute. reflexivity. Qed.

(** ** The quality block *)

Lemma starts_with_notin_at l : at_sign ∉ l → starts_with at_sign l = false.
Proof.
  destruct l as [|x l]; [done|]. intros [Hx _]%not_elem_of_cons. simpl.
  by apply bool_decide_eq_false.
Qed.

Lemma filter_no_nl (q : list byte) : nl ∉ q → filter (λ c, c ≠ nl) q = q.
Proof.
  induction q as [|c q IH]; [done|]. intros [Hc Hq]%not_elem_of_cons.
  rewrite filter_cons_True by done. by rewrite IH.
Qed.

Lemma payload_unlines qs :
  Forall (λ q, nl ∉ q) qs → payload_bytes (unlines qs) = length (concat qs).
Proof.
  unfold payload_bytes, unlines.
  induction 1 as [|q qs Hq Hqs IH]; [done|]. cbn [map concat].
  rewrite !filter_app, !length_app, IH. rewrite filter_no_nl by done.
  rewrite filter_cons_False by (intros H; by apply H). simpl. lia.
Qed.

Lemma length_unlines qs : length (unlines qs) = length (concat qs) + length qs.
Proof.
  unfold unlines. induction qs as [|q qs IH]; [done|]. cbn [map concat].
  rewrite !length_app, IH. simpl. lia.
Qed.

(** What a raw discard leaves of a quality block without '@' is a run of
    stray lines, wherever the discard ends. *)
Lemma drop_unlines_strays qs :
  Forall (λ q, (nl ∉ q) ∧ at_sign ∉ q) qs →
  ∀ n, ∃ strays, drop n (unlines qs) = unlines strays ∧ Forall stray_line strays.
Proof.
  induction 1 as [|q qs [Hnl Hat] Hqs IH]; intros n.
  - exists []. unfold unlines. cbn [map concat]. by rewrite drop_nil.
  - unfold unlines. cbn [map concat]. fold (unlines qs). rewrite <- app_assoc.
    destruct (decide (n ≤ length q)) as [Hle|Hgt].
    + destruct (IH 0) as (strays & Hd & Hs). rewrite drop_0 in Hd.
      exists (drop n q :: qs). split.
      * rewrite drop_app_le by done. unfold unlines. cbn [map concat].
        by rewrite <- app_assoc.
      * constructor.
        -- split.
           ++ intros Hin. apply Hnl. by apply (subseteq_drop n q).
           ++ apply starts_with_notin_at. intros Hin. apply Hat.
              by apply (subseteq_drop n q).
        -- eapply Forall_impl; [exact Hqs|]. intros l [Hl1 Hl2].
           split; [done|]. by apply starts_with_notin_at.
    + destruct (IH (n - length q - 1)) as (strays & Hd & Hs).
      exists strays. split; [|done]. fold (unlines strays). rewrite <- Hd.
      rewrite drop_app_ge by lia. cbn [app].
      replace (n - length q) with (S (n - length q - 1)) by lia.
      cbn [drop]. f_equal. lia.
Qed.

(** An unwrapped quality line leaves only the end of its line. *)
Lemma drop_unwrapped_quality q :
  drop (length (concat [q])) (unlines [q]) = unlines [[]] ∧ Forall stray_line [[]].
Proof.
  unfold unlines. cbn [map concat]. rewrite !app_nil_r.
  rewrite drop_app_length. split; [done|]. repeat constructor.
  apply not_elem_of_nil.
Qed.

(** C3 (the code at the failing inputs).  First input: a valid record
    with a five-byte sequence whose quality block is wrapped as "!!" /
    "!!@".  Next() discards five raw bytes, the terminator of the first
    quality line among them, so only four quality bytes are skipped; the
    rest of the block, the line "@", starts with '@' and is exposed as
    the next header, and the real header "@r2" is decoded as sequence
    data.  Second input: a record with an empty read.  Nothing is
    skipped and no header is read: the first record is returned a second
    time, with the header of the second record in its sequence. *)
Theorem Fastq_quality_skip_defect :
  (∃ f, first_fastq_record wrapped_quality_fastq = Some (bytes "r1", bytes "ACGTA", f) ∧
        Fastq.lastSeqLen f = 5 ∧
        bufio.unread (Fastq.br f) = text ["!!"; "!!@"; "@r2"; "GGGG"; "+"; "IIII"] ∧
        payload_bytes <$> skipped_by_Next f = Some 4 ∧
        ∃ f', Fastq.Next f = Some (true, f') ∧
              Fastq.identifierBytes f' = [at_sign; nl]) ∧
  fq2fa.convertFile (goseq.plain_file wrapped_quality_fastq)
    = Some [fq2fa.mkSeq (bytes "r1") (bytes "ACGTA");
            fq2fa.mkSeq [] (bytes "@r2GGGG")] ∧
  (∃ f, first_fastq_record empty_read_fastq = Some (bytes "r1", [], f) ∧
        bufio.unread (Fastq.br f) = text [""; "@r2"; "GGGG"; "+"; "IIII"] ∧
        Fastq.Next f = Some (true, f)) ∧
  fq2fa.convertFile (goseq.plain_file empty_read_fastq)
    = Some [fq2fa.mkSeq (bytes "r1") [];
            fq2fa.mkSeq (bytes "r1") (bytes "@r2GGGG")].
Proof.
  split_and!.
  - eexists. split; [vm_compute; reflexivity|].
    split; [reflexivity|]. split; [reflexivity|]. split; [vm_compute; reflexivity|].
    eexists. split; [vm_compute; reflexivity | reflexivity].
  - vm_compute. reflexivity.
  - eexists. split; [vm_compute; reflexivity|].
    split; [reflexivity | vm_compute; reflexivity].
  - vm_compute. reflexivity.
Qed.

(** Where Next() does skip the quality block exactly: let the sequence
    just returned be non-empty, let the quality block [qs] that follows
    the separator hold as many quality bytes as that sequence, however it
    is wrapped, and let the next header line follow it.  Next() discards
    that many raw bytes, line terminators included; if what the discard
    leaves of the block consists of lines none of which starts with '@',
    Next() consumes them too, exposes the header line, and the quality
    bytes it skipped are exactly as many as the sequence was long. *)
Theorem Fastq_Next_skips_quality f qs strays h more :
  Fastq.lastErr f = None →
  0 < Fastq.lastSeqLen f →
  Forall (λ q, nl ∉ q) qs →
  length (concat qs) = Fastq.lastSeqLen f →
  nl ∉ h →
  bufio.unread (Fastq.br f) = unlines qs ++ at_sign :: h ++ nl :: more →
  drop (Fastq.lastSeqLen f) (unlines qs) = unlines strays →
  Forall stray_line strays →
  Fastq.Next f =
    Some (true,
          Fastq.mkReader (Fastq.closed f) (bufio.with_unread (Fastq.br f) more)
                         (at_sign :: h ++ [nl]) 0 (Fastq.lastBytes f) None) ∧
  payload_bytes <$> skipped_by_Next f = Some (Fastq.lastSeqLen f).
Proof.
  intros He Hpos Hqs Hlen Hh Hu Hdrop Hall.
  assert (Fastq.Next f =
    Some (true,
          Fastq.mkReader (Fastq.closed f) (bufio.with_unread (Fastq.br f) more)
                         (at_sign :: h ++ [nl]) 0 (Fastq.lastBytes f) None)) as HN.
  { rewrite (Fastq_Next_resync f strays (at_sign :: h ++ nl :: more)
               (at_sign :: h ++ [nl]) more true); try done.
    - rewrite Hu, length_app, length_unlines. lia.
    - rewrite Hu, drop_app_le by (rewrite length_unlines; lia). by rewrite Hdrop.
    - apply (read_line_terminated (at_sign :: h)). rewrite not_elem_of_cons. done. }
  split; [done|].
  unfold skipped_by_Next. rewrite HN. fq_proj. cbn [fmap option_fmap option_map].
  f_equal. rewrite Hu at 1. rewrite !length_app. cbn [length]. rewrite !length_app.
  cbn [length].
  replace (_ - _ - _) with (length (unlines qs)) by lia.
  rewrite Hu, take_app_length. rewrite payload_unlines by done. done.
Qed.

Lemma Fastq_Next_skips_quality_witness :
  Fastq.Next (after_sequence 5 (text ["!!"; "!!!"; "@r2"; "GGGG"; "+"; "IIII"])) =
    Some (true,
          Fastq.mkReader false (bufio.NewReader (text ["GGGG"; "+"; "IIII"]) io_EOF)
                         (bytes "@r2" ++ [nl]) 0 (bytes "+" ++ [nl]) None) ∧
  payload_bytes <$> skipped_by_Next
      (after_sequence 5 (text ["!!"; "!!!"; "@r2"; "GGGG"; "+"; "IIII"])) = Some 5.
Proof.
  apply (Fastq_Next_skips_quality
           (after_sequence 5 (text ["!!"; "!!!"; "@r2"; "GGGG"; "+"; "IIII"]))
           [bytes "!!"; bytes "!!!"] [bytes "!"] (bytes "r2")
           (text ["GGGG"; "+"; "IIII"])).
  - reflexivity.
  - simpl. lia.
  - compute_done.
  - reflexivity.
  - compute_done.
  - reflexivity.
  - reflexivity.
  - compute_done.
Defined.

(** ** The sharder *)

Lemma fanWriters_loop_spec n rs :
  0 < n →
  ∀ subs idx, length subs = n →
    ∃ subs', fq2fa.fanWriters_loop n subs idx rs = Some (subs', idx + length rs) ∧
             length subs' = n ∧
             ∀ d q, subs !! d = Some q → subs' !! d = Some (q ++ assigned n d idx rs).
Proof.
  intros Hn. induction rs as [|s rs IH]; intros subs idx Hlen.
  - exists subs. cbn. split_and!; [f_equal; f_equal; lia | done |].
    intros d q ->. by rewrite app_nil_r.
  - cbn [fq2fa.fanWriters_loop]. rewrite decide_False by lia.
    destruct (IH (alter (λ q, q ++ [s]) (idx mod n) subs) (S idx)) as (subs' & Hrun & Hl & Hsubs).
    { by rewrite length_alter. }
    exists subs'. split_and!; [| done |].
    + rewrite Hrun. cbn [length]. do 2 f_equal. lia.
    + intros d q Hq. cbn [assigned]. destruct (decide (idx mod n = d)) as [<-|Hd].
      * rewrite (Hsubs (idx mod n) (q ++ [s])).
        -- by rewrite <- app_assoc.
        -- by rewrite list_lookup_alter_eq, Hq.
      * apply Hsubs. by rewrite list_lookup_alter_ne.
Qed.

Lemma assigned_elem n rs :
  ∀ k i s, rs !! i = Some s → s ∈ assigned n ((k + i) mod n) k rs.
Proof.
  induction rs as [|r rs IH]; intros k i s Hi; [done|].
  cbn [assigned]. destruct i as [|i]; simpl in Hi.
  - simplify_eq. rewrite Nat.add_0_r. rewrite decide_True by done. left.
  - replace (k + S i) with (S k + i) by lia. case_decide.
    + right. by apply IH.
    + by apply IH.
Qed.

(** C5: with n >= 1 destinations, the sharder handles every record: the
    counter it reports is the number of records received; destination d
    receives exactly the records whose arrival index is d modulo n, in
    arrival order; in particular the record of index i is among those
    sent to destination i mod n. *)
Theorem fanWriters_round_robin n rs :
  1 ≤ n →
  ∃ subs, fq2fa.fanWriters n rs = Some (subs, length rs) ∧
          length subs = n ∧
          (∀ d, d < n → subs !! d = Some (assigned n d 0 rs)) ∧
          (∀ i s, rs !! i = Some s →
             ∃ q, subs !! (i mod n) = Some q ∧ s ∈ q).
Proof.
  intros Hn. unfold fq2fa.fanWriters.
  destruct (fanWriters_loop_spec n rs Hn (replicate n []) 0) as (subs & Hrun & Hl & Hsubs).
  { by rewrite length_replicate. }
  assert (∀ d, d < n → subs !! d = Some (assigned n d 0 rs)) as Hd.
  { intros d Hd. rewrite (Hsubs d []); [done|]. by apply lookup_replicate_2. }
  exists subs. split_and!; [done | done | done |].
  intros i s Hi. exists (assigned n (i mod n) 0 rs). split.
  - apply Hd. apply Nat.mod_upper_bound. lia.
  - by apply (assigned_elem n rs 0 i s).
Qed.

Lemma fanWriters_round_robin_witness :
  ∃ subs, fq2fa.fanWriters 2 four_records = Some (subs, 4) ∧
          length subs = 2 ∧
          (∀ d, d < 2 → subs !! d = Some (assigned 2 d 0 four_records)) ∧
          (∀ i s, four_records !! i = Some s →
             ∃ q, subs !! (i mod 2) = Some q ∧ s ∈ q).
Proof. apply (fanWriters_round_robin 2 four_records). lia. Defined.

(** The two-destination scenario of the specification. *)
Example fanWriters_two_destinations :
  fq2fa.fanWriters 2 four_records
  = Some ([[fq2fa.mkSeq (bytes "r0") (bytes "A"); fq2fa.mkSeq (bytes "r2") (bytes "G")];
           [fq2fa.mkSeq (bytes "r1") (bytes "C"); fq2fa.mkSeq (bytes "r3") (bytes "T")]], 4).
Proof. reflexivity. Qed.

(** ** The record writer *)

Lemma chunks_spec fuel :
  ∀ s, length s ≤ fuel + 80 →
    ∃ full last, chunks fuel s = full ++ [last] ∧
                 concat full ++ last = s ∧
                 Forall (λ l, length l = 80) full ∧
                 length last ≤ 80 ∧
                 (last = [] → s = []).
Proof.
  induction fuel as [|fuel IH]; intros s Hlen; cbn [chunks].
  - rewrite decide_False by lia. exists [], s. by split_and!.
  - case_decide as H80.
    + destruct (IH (drop 80 s)) as (full & last & Hc & Hcat & Hfull & Hlast & Hnil).
      { rewrite length_drop. lia. }
      exists (take 80 s :: full), last. split_and!.
      * by rewrite Hc.
      * cbn [concat]. rewrite <- app_assoc, Hcat. apply take_drop.
      * constructor; [|done]. rewrite length_take. lia.
      * done.
      * intros Hl. apply Hnil in Hl. apply (f_equal length) in Hl.
        rewrite length_drop in Hl. simpl in Hl. lia.
    + exists [], s. split_and!; [done | done | done | lia | done].
Qed.

Lemma wrap_loop_chunks fuel :
  ∀ w s, length s ≤ fuel + 80 →
    ∃ full last, chunks fuel s = full ++ [last] ∧
                 fq2fa.wrap_loop fuel w s = Some (w ++ unlines full, last).
Proof.
  induction fuel as [|fuel IH]; intros w s Hlen; cbn [chunks fq2fa.wrap_loop].
  - rewrite !decide_False by lia. exists [], s. split; [done|].
    by rewrite app_nil_r.
  - case_decide as H80.
    + destruct (IH (fq2fa.Fprintln w (take 80 s)) (drop 80 s))
        as (full & last & Hc & Hw).
      { rewrite length_drop. lia. }
      exists (take 80 s :: full), last. split; [by rewrite Hc|].
      rewrite Hw. unfold fq2fa.Fprintln, unlines. cbn [map concat].
      by rewrite <- !app_assoc.
    + exists [], s. split; [done|]. by rewrite app_nil_r.
Qed.

Lemma unlines_snoc ls l : unlines (ls ++ [l]) = unlines ls ++ l ++ [nl].
Proof.
  unfold unlines. rewrite map_app, concat_app. cbn [map concat].
  by rewrite app_nil_r.
Qed.

Lemma write_record_text w s :
  fq2fa.write_record w s = Some (w ++ render_record (wrapped s)).
Proof.
  unfold fq2fa.write_record, render_record, wrapped, wrapped_lines.
  cbn [fst snd fq2fa.Identifier].
  destruct (wrap_loop_chunks (length (fq2fa.Sequence s))
              (fq2fa.Fprintln w (gt :: fq2fa.Identifier s)) (fq2fa.Sequence s))
    as (full & last & Hc & Hw); [lia|].
  rewrite Hw, Hc. cbn [mbind option_bind]. unfold fq2fa.Fprintln.
  rewrite unlines_snoc. f_equal. rewrite <- !app_assoc. done.
Qed.

Lemma seqWriter_loop_text rs :
  ∀ w, fq2fa.seqWriter_loop w rs = Some (w ++ render (map wrapped rs)).
Proof.
  induction rs as [|s rs IH]; intros w; cbn [fq2fa.seqWriter_loop].
  - by rewrite app_nil_r.
  - rewrite write_record_text. cbn [mbind option_bind]. rewrite IH.
    unfold render. cbn [map concat]. by rewrite <- app_assoc.
Qed.

Lemma seqWriter_text rs : fq2fa.seqWriter rs = Some (render (map wrapped rs)).
Proof. unfold fq2fa.seqWriter. by rewrite seqWriter_loop_text. Qed.

(** C6: for every record the writer appends the marker line, '>' and the
    identifier, and then the sequence in lines of exactly 80 bytes followed
    by a last line of at most 80 bytes, every line with its terminator; the
    last line is written even when it is empty, which happens only for an
    empty sequence.  And the two-record FASTA text of the specification,
    decoded and written to one destination, is reproduced exactly. *)
Theorem seqWriter_wraps_at_80 :
  (∀ w s, ∃ full last,
     fq2fa.write_record w s
       = Some (w ++ (gt :: fq2fa.Identifier s ++ [nl]) ++ unlines (full ++ [last])) ∧
     concat (full ++ [last]) = fq2fa.Sequence s ∧
     Forall (λ l, length l = 80) full ∧
     length last ≤ 80 ∧
     (last = [] → fq2fa.Sequence s = [])) ∧
  fq2fa.convertFile (goseq.plain_file two_fasta) ≫= fq2fa.seqWriter = Some two_fasta.
Proof.
  split; [|vm_compute; reflexivity].
  intros w s.
  destruct (chunks_spec (length (fq2fa.Sequence s)) (fq2fa.Sequence s))
    as (full & last & Hc & Hcat & Hfull & Hlast & Hnil); [lia|].
  exists full, last. split_and!; [| | done | done | done].
  - rewrite write_record_text. unfold render_record, wrapped, wrapped_lines.
    cbn [fst snd]. rewrite Hc. do 2 f_equal. cbn [app]. by rewrite <- app_assoc.
  - rewrite concat_app. cbn [concat]. by rewrite app_nil_r.
Qed.

(** ** The FASTA decoder on a valid text *)

Section fasta_decode.
Import bufio.
Variable B : nat.
Hypothesis HB : 0 < B.

Lemma fasta_line_head l :
  fasta_line_ok B l → ∃ c t, l ++ [nl] = c :: t ∧ c ≠ gt.
Proof.
  intros (_ & _ & Hs). destruct l as [|c l]; simpl.
  - by exists nl, [].
  - exists c, (l ++ [nl]). split; [done|]. simpl in Hs.
    by apply bool_decide_eq_false in Hs.
Qed.

Lemma drop_last_line l : drop_last (l ++ [nl]) = l.
Proof.
  unfold drop_last. rewrite length_app. simpl.
  replace (length l + 1 - 1) with (length l) by lia. apply take_app_length.
Qed.

(** The sequence lines of a record are read one by one. *)
Lemma Fasta_Sequence_loop_lines lines :
  ∀ fuel cl idl lb acc rest,
    Forall (fasta_line_ok B) lines →
    ∃ lb',
      Fasta.Sequence_loop (length lines + fuel)
        (fasta_state B cl idl lb (unlines lines ++ rest) None) acc
      = Fasta.Sequence_loop fuel (fasta_state B cl idl lb' rest None)
          (acc ++ concat lines).
Proof.
  induction lines as [|l lines IH]; intros fuel cl idl lb acc rest Hall.
  - exists lb. cbn [length concat unlines map app]. by rewrite app_nil_r.
  - apply Forall_cons in Hall as [Hl Hall].
    destruct (IH fuel cl idl (l ++ [nl]) (acc ++ l) rest Hall) as [lb' IH'].
    exists lb'. cbn [concat]. rewrite (app_assoc acc l). rewrite <- IH'. clear IH'.
    cbn [length Nat.add Fasta.Sequence_loop].
    unfold unlines. cbn [map concat]. fold (unlines lines).
    rewrite <- !app_assoc. cbn [app].
    erewrite (ReadSlice_line _ l (unlines lines ++ rest)); [| by apply Hl | | done].
    2:{ cbn. by apply Hl. }
    rewrite (decide_False (P := None = Some ErrBufferFull)) by done.
    destruct (fasta_line_head l Hl) as (c & t & Hct & Hc).
    rewrite Hct. rewrite decide_False by done. rewrite <- Hct.
    by rewrite drop_last_line.
Qed.

(** At the end of the data Sequence() stops with io.EOF. *)
Lemma Fasta_Sequence_loop_end fuel cl idl lb acc :
  Fasta.Sequence_loop (S fuel) (fasta_state B cl idl lb [] None) acc
  = Some (acc, fasta_state B cl idl [] [] (Some io_EOF)).
Proof.
  cbn [Fasta.Sequence_loop]. rewrite ReadSlice_end by done.
  by rewrite decide_False.
Qed.

(** At the next header line Sequence() stops and keeps that line. *)
Lemma Fasta_Sequence_loop_header fuel cl idl lb acc id rest :
  nl ∉ id → length id + 2 ≤ B →
  Fasta.Sequence_loop (S fuel)
    (fasta_state B cl idl lb (gt :: id ++ nl :: rest) None) acc
  = Some (acc, fasta_state B cl (gt :: id ++ [nl]) (gt :: id ++ [nl]) rest None).
Proof.
  intros Hid Hlen. cbn [Fasta.Sequence_loop].
  erewrite (ReadSlice_line _ (gt :: id) rest); [| | | done].
  2:{ rewrite not_elem_of_cons. done. }
  2:{ cbn. lia. }
  rewrite (decide_False (P := None = Some ErrBufferFull)) by done.
  cbn [app]. by rewrite decide_True.
Qed.

Lemma render_cons r recs :
  render (r :: recs) = gt :: r.1 ++ nl :: unlines r.2 ++ render recs.
Proof.
  unfold render, render_record. cbn [map concat app].
  by rewrite <- !app_assoc.
Qed.

(** Sequence() on a record's lines, followed by the rest of the text. *)
Lemma Fasta_Sequence_record cl idl lb lines recs :
  Forall (fasta_line_ok B) lines → Forall (fasta_record_ok B) recs →
  Fasta.Sequence (fasta_state B cl idl lb (unlines lines ++ render recs) None)
  = Some (concat lines,
          match recs with
          | [] => fasta_state B cl idl [] [] (Some io_EOF)
          | r :: recs' =>
              fasta_state B cl (gt :: r.1 ++ [nl]) (gt :: r.1 ++ [nl])
                          (unlines r.2 ++ render recs') None
          end).
Proof.
  intros Hlines Hrecs. unfold Fasta.Sequence.
  cbn [Fasta.br fasta_state unread].
  pose proof (length_unlines_ge lines) as Hge.
  replace (S (length (unlines lines ++ render recs)))
    with (length lines + S (length (unlines lines ++ render recs) - length lines))
    by (rewrite length_app; lia).
  destruct (Fasta_Sequence_loop_lines lines
              (S (length (unlines lines ++ render recs) - length lines))
              cl idl lb [] (render recs) Hlines) as [lb' ->].
  cbn [app]. destruct recs as [|r recs'].
  - apply Fasta_Sequence_loop_end.
  - apply Forall_cons in Hrecs as [(Hid & Hlen & _) _].
    rewrite render_cons. by apply Fasta_Sequence_loop_header.
Qed.

Lemma drop_last_snoc (l : list byte) c : drop_last (l ++ [c]) = l.
Proof.
  unfold drop_last. rewrite length_app. simpl.
  replace (length l + 1 - 1) with (length l) by lia. apply take_app_length.
Qed.

(** A chunk that fills the buffer is appended without its last byte. *)
Lemma Fasta_Sequence_loop_full fuel cl idl lb acc chunk rest :
  nl ∉ chunk → length chunk = B → starts_with gt chunk = false →
  Fasta.Sequence_loop (S fuel) (fasta_state B cl idl lb (chunk ++ rest) None) acc
  = Fasta.Sequence_loop fuel (fasta_state B cl idl chunk rest None)
      (acc ++ drop_last chunk).
Proof.
  intros Hn Hlen Hgt. cbn [Fasta.Sequence_loop].
  erewrite (ReadSlice_full _ chunk rest); [|done|by cbn|done].
  rewrite decide_True by done.
  destruct chunk as [|c t]; [simpl in Hlen; lia|].
  simpl in Hgt. apply bool_decide_eq_false in Hgt.
  by rewrite decide_False.
Qed.

(** A sequence line longer than the buffer: the chunk [a ++ [x]] fills
    the buffer and its last byte [x] is dropped. *)
Lemma Fasta_Sequence_long_line cl idl lb a x l :
  length a + 1 = B → nl ∉ a ++ [x] → starts_with gt (a ++ [x]) = false →
  fasta_line_ok B l →
  Fasta.Sequence (fasta_state B cl idl lb ((a ++ [x]) ++ l ++ [nl]) None)
  = Some (a ++ l, fasta_state B cl idl [] [] (Some io_EOF)).
Proof.
  intros Hlen Hn Hgt Hl. unfold Fasta.Sequence.
  cbn [Fasta.br fasta_state unread].
  fold (fasta_state B cl idl lb ((a ++ [x]) ++ l ++ [nl]) None).
  rewrite Fasta_Sequence_loop_full; [|done|rewrite length_app; cbn; lia|done].
  rewrite drop_last_snoc. cbn [app].
  replace (length ((a ++ [x]) ++ l ++ [nl]))
    with (length [l] + S (length a + length l))
    by (rewrite !length_app; cbn [length]; lia).
  destruct (Fasta_Sequence_loop_lines [l] (S (length a + length l)) cl idl
              (a ++ [x]) a []) as [lb' Hrun]; [by constructor|].
  unfold unlines in Hrun. cbn [map concat] in Hrun.
  rewrite !app_nil_r in Hrun. rewrite Hrun.
  apply Fasta_Sequence_loop_end.
Qed.

End fasta_decode.

(** ** The conversion loop on a valid FASTA text *)

Lemma slice_header id : slice_1_to_last (gt :: id ++ [nl]) = Some id.
Proof.
  unfold slice_1_to_last. cbn [length]. rewrite length_app. cbn [length].
  rewrite decide_True by lia. f_equal. cbn [drop].
  replace (S (length id + 1) - 2) with (length id) by lia.
  apply take_app_length.
Qed.

Lemma length_render_ge recs : length recs ≤ length (render recs).
Proof.
  induction recs as [|r recs IH]; [done|].
  rewrite render_cons. cbn [length]. rewrite !length_app. cbn [length].
  rewrite length_app. lia.
Qed.

Lemma convert_loop_same_Next fuel r r1 sent :
  goseq.Next r = goseq.Next r1 →
  fq2fa.convert_loop (S fuel) r sent = fq2fa.convert_loop (S fuel) r1 sent.
Proof. intros H. cbn [fq2fa.convert_loop]. by rewrite H. Qed.

Lemma goseq_Next_header B cl idl lb rest :
  goseq.Next (goseq.FastaReader (fasta_state B cl (gt :: idl) lb rest None))
  = Some (true, goseq.FastaReader (fasta_state B cl (gt :: idl) lb rest None)).
Proof. reflexivity. Qed.

Lemma goseq_Identifier_header B cl id lb rest e :
  goseq.Identifier (goseq.FastaReader (fasta_state B cl (gt :: id ++ [nl]) lb rest e))
  = Some id.
Proof. apply slice_header. Qed.

Lemma goseq_Sequence_record B cl idl lb lines recs :
  0 < B → Forall (fasta_line_ok B) lines → Forall (fasta_record_ok B) recs →
  goseq.Sequence
    (goseq.FastaReader (fasta_state B cl idl lb (unlines lines ++ render recs) None))
  = Some (concat lines,
          goseq.FastaReader
            match recs with
            | [] => fasta_state B cl idl [] [] (Some io_EOF)
            | r :: recs' =>
                fasta_state B cl (gt :: r.1 ++ [nl]) (gt :: r.1 ++ [nl])
                            (unlines r.2 ++ render recs') None
            end).
Proof.
  intros HB Hl Hr. cbn [goseq.Sequence].
  by rewrite (Fasta_Sequence_record B HB cl idl lb lines recs).
Qed.

Lemma convert_loop_fasta B recs :
  0 < B →
  ∀ fuel id lines lb sent,
    fasta_record_ok B (id, lines) → Forall (fasta_record_ok B) recs →
    length recs + 2 ≤ fuel →
    ∃ r', fq2fa.convert_loop fuel
            (goseq.FastaReader
               (fasta_state B false (gt :: id ++ [nl]) lb
                            (unlines lines ++ render recs) None)) sent
          = Some (sent ++ map to_Seq ((id, lines) :: recs), r') ∧
          goseq.Err r' = Some io_EOF.
Proof.
  intros HB. induction recs as [|[id2 lines2] recs IH];
    intros fuel id lines lb sent (Hid & Hlen & Hlines) Hrecs Hfuel;
    (destruct fuel as [|fuel]; [lia|]);
    cbn [fq2fa.convert_loop];
    rewrite goseq_Next_header; cbn [mbind option_bind];
    rewrite goseq_Identifier_header; cbn [mbind option_bind];
    rewrite goseq_Sequence_record by done; cbn [mbind option_bind].
  - destruct fuel as [|fuel]; [simpl in Hfuel; lia|].
    eexists. split; reflexivity.
  - cbn [fst snd]. apply Forall_cons in Hrecs as [Hr Hrecs].
    destruct (IH fuel id2 lines2 (gt :: id2 ++ [nl])
                (sent ++ [fq2fa.mkSeq id (concat lines)]) Hr Hrecs)
      as (r' & Hrun & Herr); [simpl in Hfuel; lia|].
    exists r'. split; [|done]. rewrite Hrun. do 2 f_equal.
    by rewrite <- app_assoc.
Qed.

Lemma plain_file_opens bs : stream_opens (goseq.plain_file bs).
Proof. split; [done|]. intros H. vm_compute in H. discriminate. Qed.

(** The decoder is correct on a valid FASTA text: the records read are
    the records of the text, in order, each sequence being the
    concatenation of its lines. *)
Lemma convertFile_valid_fasta recs :
  recs ≠ [] → Forall (fasta_record_ok bufio.defaultBufSize) recs →
  fq2fa.convertFile (goseq.plain_file (render recs)) = Some (map to_Seq recs).
Proof.
  intros Hne Hrecs. destruct recs as [|[id lines] recs]; [done|].
  apply Forall_cons in Hrecs as [Hr Hrecs].
  assert (0 < bufio.defaultBufSize) as HB by (unfold bufio.defaultBufSize; lia).
  unfold fq2fa.convertFile. rewrite Open_stream by apply plain_file_opens.
  cbn [goseq.plain_file goseq.data]. rewrite render_cons. cbn [fst snd].
  rewrite decide_False by done.
  unfold fq2fa.records_of.
  erewrite (convert_loop_same_Next _ _
    (goseq.FastaReader (fasta_state bufio.defaultBufSize false (gt :: id ++ [nl]) []
                          (unlines lines ++ render recs) None))).
  - destruct (convert_loop_fasta bufio.defaultBufSize recs HB
                (S (S (length (goseq.unread (goseq.FastaReader (fresh_fasta
                   (goseq.plain_file
                      (gt :: id ++ nl :: unlines lines ++ render recs))))))))
                id lines [] [] Hr Hrecs) as (r' & Hrun & Herr).
    { cbn [goseq.unread fresh_fasta Fasta.br goseq.data goseq.plain_file
           bufio.NewReader bufio.unread length].
      rewrite !length_app. cbn [length]. rewrite length_app.
      pose proof (length_render_ge recs). lia. }
    rewrite Hrun. cbn [mbind option_bind]. by rewrite Herr.
  - cbn [goseq.Next]. unfold Fasta.Next, fresh_fasta.
    cbn [Fasta.lastErr Fasta.br Fasta.closed Fasta.lastBytes goseq.data goseq.data_err].
    rewrite (decide_True (P := Some errNotStarted = Some errNotStarted)) by done.
    unfold bufio.NewReader.
    erewrite (ReadBytes_line _ (gt :: id) (unlines lines ++ render recs));
      [reflexivity | | done].
    rewrite not_elem_of_cons. split; [done | apply Hr].
Qed.

(** ** The round trip *)

Lemma starts_with_notin c l : c ∉ l → starts_with c l = false.
Proof.
  destruct l as [|x l]; [done|]. intros [Hx _]%not_elem_of_cons. simpl.
  by apply bool_decide_eq_false.
Qed.

Lemma notin_concat (c : byte) ls : Forall (λ l, c ∉ l) ls → c ∉ concat ls.
Proof.
  induction 1 as [|l ls Hl Hls IH]; cbn [concat].
  - apply not_elem_of_nil.
  - rewrite not_elem_of_app. done.
Qed.

Lemma elem_of_chunk (s : list byte) full last l :
  concat full ++ last = s → l ∈ full ++ [last] → ∀ c : byte, c ∈ l → c ∈ s.
Proof.
  intros <- Hl c Hc. apply elem_of_app. apply elem_of_app in Hl as [Hl|Hl].
  - left. apply list_elem_of_In, in_concat. exists l.
    split; by apply list_elem_of_In.
  - right. apply list_elem_of_singleton in Hl. by subst.
Qed.

Lemma wrapped_lines_ok B s :
  80 < B → nl ∉ s → gt ∉ s → Forall (fasta_line_ok B) (wrapped_lines s).
Proof.
  intros HB Hnl Hgt. unfold wrapped_lines.
  destruct (chunks_spec (length s) s) as (full & last & -> & Hcat & Hfull & Hlast & _);
    [lia|].
  apply Forall_forall. intros l Hl.
  pose proof (elem_of_chunk s full last l Hcat Hl) as Hsub.
  split_and!.
  - intros H. by apply Hnl, Hsub.
  - apply elem_of_app in Hl as [Hl|Hl].
    + rewrite Forall_forall in Hfull. rewrite (Hfull l Hl). lia.
    + apply list_elem_of_singleton in Hl. subst. lia.
  - apply starts_with_notin. intros H. by apply Hgt, Hsub.
Qed.

Lemma to_Seq_wrapped s : to_Seq (wrapped s) = s.
Proof.
  destruct s as [id sq]. unfold to_Seq, wrapped, wrapped_lines. cbn [fst snd fq2fa.Identifier fq2fa.Sequence].
  destruct (chunks_spec (length sq) sq) as (full & last & -> & Hcat & _); [lia|].
  rewrite concat_app. cbn [concat]. rewrite app_nil_r. by rewrite Hcat.
Qed.

Lemma wrapped_record_ok B r :
  80 < B → fasta_record_plain B r → fasta_record_ok B (wrapped (to_Seq r)).
Proof.
  intros HB [(Hid & Hlen & Hlines) Hgt]. unfold wrapped, to_Seq.
  cbn [fst snd fq2fa.Identifier fq2fa.Sequence]. split_and!; [done | done |].
  apply wrapped_lines_ok; [done | | ].
  - apply notin_concat. eapply Forall_impl; [exact Hlines|]. by intros l (H & _).
  - by apply notin_concat.
Qed.

(** C7 (the code at the failing input): a valid FASTA file whose second
    header line is longer than the read buffer.  Sequence() receives the
    first 4096 bytes of that line as if they were the whole line: they
    become the header, cut to 4094 bytes, and the rest of the line is
    decoded as sequence data, so the second sequence is 80 bytes 'x'
    followed by ">yzGG".  The writer wraps it after 80 bytes, the second
    line of its text starts with '>', and decoding that text gives three
    records where the first decoding gave two. *)
Theorem round_trip_long_header :
  fq2fa.convertFile (goseq.plain_file long_header_fasta)
    = Some [fq2fa.mkSeq (bytes "s1") (bytes "ACGT");
            fq2fa.mkSeq (replicate 4094 "x"%char)
                        (replicate 80 "x"%char ++ bytes ">yzGG")] ∧
  ∃ out,
    fq2fa.seqWriter [fq2fa.mkSeq (bytes "s1") (bytes "ACGT");
                     fq2fa.mkSeq (replicate 4094 "x"%char)
                                 (replicate 80 "x"%char ++ bytes ">yzGG")]
      = Some out ∧
    fq2fa.convertFile (goseq.plain_file out)
      = Some [fq2fa.mkSeq (bytes "s1") (bytes "ACGT");
              fq2fa.mkSeq (replicate 4094 "x"%char) (replicate 80 "x"%char);
              fq2fa.mkSeq (bytes "yzGG") []].
Proof.
  split; [vm_compute; reflexivity|].
  eexists. split; vm_compute; reflexivity.
Qed.

(** Where the round trip holds: take a FASTA text that is a non-empty
    list of records whose header line fits in the read buffer and whose
    sequence lines are terminated, fit in the buffer and hold no record
    marker.  Decoding such a text, writing the records with the
    80-column writer and decoding what was written gives the records of
    the first decoding again. *)
Theorem fasta_round_trip recs :
  recs ≠ [] → Forall (fasta_record_plain bufio.defaultBufSize) recs →
  ∃ rs out,
    fq2fa.convertFile (goseq.plain_file (render recs)) = Some rs ∧
    fq2fa.seqWriter rs = Some out ∧
    fq2fa.convertFile (goseq.plain_file out) = Some rs.
Proof.
  intros Hne Hrecs.
  exists (map to_Seq recs), (render (map wrapped (map to_Seq recs))).
  split_and!.
  - apply convertFile_valid_fasta; [done|].
    eapply Forall_impl; [exact Hrecs|]. by intros r [H _].
  - apply seqWriter_text.
  - rewrite convertFile_valid_fasta.
    + f_equal. rewrite <- !list_fmap_compose. apply list_fmap_ext.
      intros i r _. cbn. apply to_Seq_wrapped.
    + by destruct recs.
    + rewrite <- list_fmap_compose. apply Forall_fmap.
      eapply Forall_impl; [exact Hrecs|]. intros r Hr. cbn.
      apply wrapped_record_ok; [|done]. unfold bufio.defaultBufSize. lia.
Qed.

Lemma fasta_round_trip_witness :
  ∃ rs out,
    fq2fa.convertFile (goseq.plain_file (render sample_records)) = Some rs ∧
    fq2fa.seqWriter rs = Some out ∧
    fq2fa.convertFile (goseq.plain_file out) = Some rs.
Proof.
  apply (fasta_round_trip sample_records).
  - discriminate.
  - compute_done.
Defined.

(** ** Progress() *)

Section progress_facts.
Import progress.
Variable fl : Q → Q.
Hypothesis Hfl : rounding fl.

Lemma fl_proper x y : (x == y)%Q → (fl x == fl y)%Q.
Proof.
  intros Hxy. destruct Hfl as [Hmono _].
  apply Qle_antisym; apply Hmono; rewrite Hxy; apply Qle_refl.
Qed.

Lemma wrap64_small z : (0 ≤ z ≤ 2 ^ 53)%Z → wrap64 z = z.
Proof.
  intros Hz. unfold wrap64. rewrite Z.mod_small; lia.
Qed.

Lemma Progress_known f size pos :
  Stat f = Some size → Seek_cur f = Some pos →
  (0 < size)%Z → (0 ≤ pos ≤ size)%Z → (size * 100 ≤ 2 ^ 53)%Z →
  (Progress fl f == fl (inject_Z (pos * 100) / inject_Z size))%Q.
Proof.
  intros Hs Hp Hsz Hpos Hsmall. destruct Hfl as [Hmono Hexact].
  unfold Progress. rewrite Hs, Hp.
  destruct (Z.leb_spec size 0) as [|_]; [lia|].
  unfold fdiv, float64. rewrite wrap64_small by lia.
  apply fl_proper. rewrite !Hexact by lia. reflexivity.
Qed.

End progress_facts.




(** ** Packed k-mers *)

Section kmer_facts.
Local Open Scope Z_scope.

Lemma pow4_pow2 n : 0 ≤ n → 4 ^ n = 2 ^ (2 * n).
Proof. intros Hn. rewrite Z.pow_mul_r by lia. done. Qed.

Lemma pow4_pos n : 0 ≤ n → 0 < 4 ^ n.
Proof. intros. apply Z.pow_pos_nonneg; lia. Qed.

Lemma pow4_le_64 n : 0 ≤ n ≤ 32 → 4 ^ n ≤ 2 ^ 64.
Proof.
  intros Hn. rewrite pow4_pow2 by lia. apply Z.pow_le_mono_r; lia.
Qed.

Lemma pow4_succ n : 0 ≤ n → 4 ^ (n + 1) = 4 * 4 ^ n.
Proof. intros. rewrite Z.pow_add_r by lia. lia. Qed.

(** The mask of a k-mer size up to 32 is 4^k - 1; for k = 32 the shift
    wraps to 0 and the subtraction wraps to 2^64 - 1. *)
Lemma NewKmerBase_mask (k : N) :
  (k ≤ 32)%N →
  kmer.NewKmerBase k = Some (kmer.mkBase (Z.of_N k) (4 ^ Z.of_N k - 1)).
Proof.
  intros Hk. unfold kmer.NewKmerBase, kmer.MaxKmerSize.
  destruct (Z.ltb_spec 32 (Z.of_N k)) as [|_]; [lia|]. do 2 f_equal.
  unfold kmer.uint64. rewrite Z.shiftl_1_l.
  replace (Z.of_N k * 2) with (2 * Z.of_N k) by lia.
  rewrite <- pow4_pow2 by lia.
  destruct (decide (Z.of_N k = 32)) as [->|Hne].
  - reflexivity.
  - assert (4 ^ Z.of_N k ≤ 4 ^ 31) by (apply Z.pow_le_mono_r; lia).
    pose proof (pow4_pos (Z.of_N k)).
    assert (4 ^ 31 < 2 ^ 64) by reflexivity.
    rewrite (Z.mod_small (4 ^ Z.of_N k)) by lia.
    rewrite Z.mod_small by lia. done.
Qed.

Lemma lor_mul4 y c : 0 ≤ c < 4 → Z.lor (4 * y) c = 4 * y + c.
Proof.
  intros Hc. rewrite <- Z.lxor_lor, <- Z.add_nocarry_lxor; [done | |].
  all: replace (4 * y) with (Z.shiftl y 2) by (rewrite Z.shiftl_mul_pow2; lia).
  all: apply Z.bits_inj'; intros n Hn; rewrite Z.land_spec, Z.bits_0.
  all: destruct (decide (n < 2)).
  all: try (rewrite Z.shiftl_spec_low by lia; done).
  all: rewrite (Z.bits_above_log2 c n), andb_false_r; try done; try lia.
  all: assert (c = 0 ∨ c = 1 ∨ c = 2 ∨ c = 3) as [->|[->|[->| ->]]] by lia; simpl; lia.
Qed.

Lemma base_code_range c : 0 ≤ base_code c < 4.
Proof. unfold base_code. repeat case_bool_decide; lia. Qed.

Lemma letter_base_code c : kmer.letter (base_code c) = [base_letter c].
Proof. unfold base_code, base_letter. by repeat case_bool_decide. Qed.

Lemma AppendBase_code b km nuc :
  kmer.AppendBase b km nuc =
    Z.lor (Z.land (kmer.mask b) (kmer.uint64 (Z.shiftl km 2))) (base_code nuc).
Proof.
  unfold kmer.AppendBase, base_code.
  repeat case_bool_decide; rewrite ?Z.lor_0_r; try done.
  all: exfalso; intuition congruence.
Qed.

(** In arithmetic terms AppendBase multiplies by four, adds the code of
    the base and reduces modulo 4^k. *)
Lemma AppendBase_arith K km nuc :
  1 ≤ K ≤ 32 →
  kmer.AppendBase (kmer.mkBase K (4 ^ K - 1)) km nuc
  = (4 * km + base_code nuc) mod 4 ^ K.
Proof.
  intros HK. rewrite AppendBase_code. cbn [kmer.mask]. unfold kmer.uint64.
  pose proof (base_code_range nuc) as Hc.
  rewrite Z.shiftl_mul_pow2 by lia. change (2 ^ 2) with 4.
  rewrite Z.land_comm.
  replace (4 ^ K - 1) with (Z.ones (2 * K))
    by (rewrite Z.ones_equiv, <- pow4_pow2 by lia; lia).
  rewrite Z.land_ones by lia. rewrite <- pow4_pow2 by lia.
  rewrite Z.mod_mod_divide.
  2:{ exists (4 ^ (32 - K)). rewrite <- Z.pow_add_r by lia.
      replace (32 - K + K) with 32 by lia. reflexivity. }
  replace K with ((K - 1) + 1) by lia. rewrite pow4_succ by lia.
  pose proof (pow4_pos (K - 1)) as Hp.
  rewrite (Z.mul_comm km 4). rewrite Z.mul_mod_distr_l by lia.
  pose proof (Z.mod_pos_bound km (4 ^ (K - 1))) as Hm.
  rewrite lor_mul4 by done.
  apply Z.mod_unique with (q := km / 4 ^ (K - 1)); [lia|].
  pose proof (Z.div_mod km (4 ^ (K - 1))). lia.
Qed.

Lemma base4_range s : 0 ≤ base4 s < 4 ^ Z.of_nat (length s).
Proof.
  induction s as [|c s IH]; [simpl; lia|].
  cbn [base4 length]. pose proof (base_code_range c).
  rewrite Nat2Z.inj_succ, <- Z.add_1_r, pow4_succ by lia. nia.
Qed.

Lemma append_all_arith K s :
  1 ≤ K ≤ 32 →
  ∀ km, append_all (kmer.mkBase K (4 ^ K - 1)) km s
        = if decide (s = []) then km
          else (km * 4 ^ Z.of_nat (length s) + base4 s) mod 4 ^ K.
Proof.
  intros HK. unfold append_all.
  induction s as [|c s IH]; intros km; [done|].
  cbn [foldl]. rewrite IH, AppendBase_arith by done.
  rewrite (decide_False (P := c :: s = [])) by done.
  cbn [base4 length]. rewrite Nat2Z.inj_succ, <- Z.add_1_r, pow4_succ by lia.
  destruct (decide (s = [])) as [->|Hs].
  - simpl. f_equal. lia.
  - rewrite Z.add_mod, Z.mul_mod_idemp_l, <- Z.add_mod by (pose proof (pow4_pos K); lia).
    f_equal. lia.
Qed.

Lemma base4_app s1 s2 :
  base4 (s1 ++ s2) = base4 s1 * 4 ^ Z.of_nat (length s2) + base4 s2.
Proof.
  induction s1 as [|c s1 IH]; [simpl; lia|].
  cbn [app base4]. rewrite IH, length_app, Nat2Z.inj_add.
  rewrite Z.pow_add_r by lia. lia.
Qed.

Lemma land3_mod x : Z.land x 3 = x mod 4.
Proof. change 3 with (Z.ones 2). by rewrite Z.land_ones. Qed.

(** String() reads the bases back, first base first. *)
Lemma String_loop_base4 s :
  ∀ v r, kmer.String_loop (length s) (v * 4 ^ Z.of_nat (length s) + base4 s) r
         = r ++ map base_letter s.
Proof.
  induction s as [|c s IH]; intros v r; [by rewrite app_nil_r|].
  cbn [length kmer.String_loop base4 map].
  set (n := Z.of_nat (length s)).
  rewrite Nat2Z.inj_succ, <- Z.add_1_r. fold n.
  rewrite pow4_succ by lia.
  replace (v * (4 * 4 ^ n) + (base_code c * 4 ^ n + base4 s))
    with ((4 * v + base_code c) * 4 ^ n + base4 s) by lia.
  rewrite IH. rewrite <- app_assoc. f_equal.
  rewrite Z.shiftr_div_pow2 by lia.
  replace (2 ^ (n * 2)) with (4 ^ n) by (rewrite pow4_pow2 by lia; f_equal; lia).
  pose proof (pow4_pos n ltac:(lia)). pose proof (base4_range s).
  rewrite Z.div_add_l by lia. rewrite (Z.div_small (base4 s)) by (fold n in H0; lia).
  rewrite Z.add_0_r, land3_mod.
  rewrite Z.add_comm, Z.mul_comm, Z.mod_add by lia.
  rewrite Z.mod_small by apply base_code_range.
  by rewrite letter_base_code.
Qed.

Lemma String_loop_length n :
  ∀ km r, length (kmer.String_loop n km r) = (length r + n)%nat.
Proof.
  induction n as [|n IH]; intros km r; cbn [kmer.String_loop]; [lia|].
  rewrite IH, length_app.
  assert (∀ d, 0 ≤ d < 4 → length (kmer.letter d) = 1%nat) as Hl.
  { intros d Hd. assert (d = 0 ∨ d = 1 ∨ d = 2 ∨ d = 3) as [->|[->|[->| ->]]] by lia; done. }
  rewrite Hl; [lia|]. rewrite land3_mod. apply Z.mod_pos_bound. lia.
Qed.

(** A run of bases denotes the largest number of its length exactly when
    all of them are 'T'. *)
Lemma base4_all_T s :
  base4 s = 4 ^ Z.of_nat (length s) - 1 ↔ Forall (λ c, base_code c = 3) s.
Proof.
  induction s as [|c s IH]; [by split|].
  cbn [base4 length]. rewrite Nat2Z.inj_succ, <- Z.add_1_r, pow4_succ by lia.
  pose proof (base4_range s). pose proof (base_code_range c).
  pose proof (pow4_pos (Z.of_nat (length s))).
  rewrite Forall_cons. rewrite <- IH. split.
  - intros Heq. assert (base_code c = 3) by nia. split; [done|]. nia.
  - intros [-> ->]. lia.
Qed.

Lemma NewKmerBase_large (k : N) : ¬ (k ≤ 32)%N → kmer.NewKmerBase k = None.
Proof.
  intros Hk. unfold kmer.NewKmerBase, kmer.MaxKmerSize.
  destruct (Z.ltb_spec 32 (Z.of_N k)); [done | lia].
Qed.

(** X1: NewKmerBase accepts exactly the sizes up to 32, and the mask it
    computes is 4^k - 1, also for k = 32 where the shift wraps around. *)
Theorem NewKmerBase_spec (k : N) :
  kmer.NewKmerBase k =
    if decide (k ≤ 32)%N
    then Some (kmer.mkBase (Z.of_N k) (4 ^ Z.of_N k - 1))
    else None.
Proof.
  case_decide as Hk; [by apply NewKmerBase_mask | by apply NewKmerBase_large].
Qed.

(** X2: Count() is the number 4^k of k-mers for k below 32; for k = 32
    the addition wraps around and Count() is 0. *)
Theorem Count_spec (k : N) b :
  kmer.NewKmerBase k = Some b →
  kmer.Count b = if decide (k = 32%N) then 0 else 4 ^ Z.of_N k.
Proof.
  intros Hb. destruct (decide (k ≤ 32)%N) as [Hk|Hk].
  2:{ by rewrite NewKmerBase_large in Hb. }
  rewrite NewKmerBase_mask in Hb by done. injection Hb as <-.
  unfold kmer.Count, kmer.uint64. cbn [kmer.mask].
  replace (1 + (4 ^ Z.of_N k - 1)) with (4 ^ Z.of_N k) by lia.
  case_decide as H32.
  - subst k. reflexivity.
  - assert (4 ^ Z.of_N k ≤ 4 ^ 31) by (apply Z.pow_le_mono_r; lia).
    pose proof (pow4_pos (Z.of_N k) ltac:(lia)).
    assert (4 ^ 31 < 2 ^ 64) by reflexivity.
    apply Z.mod_small. lia.
Qed.

Lemma Count_spec_witness :
  kmer.Count (kmer.mkBase 32 (2 ^ 64 - 1)) = 0.
Proof. exact (Count_spec 32%N (kmer.mkBase 32 (2 ^ 64 - 1)) eq_refl). Defined.

(** X3: for a size from 1 to 32, AppendBase keeps the k-mer within the
    mask: the new value is four times the old one plus the code of the
    base (0 for A and for any byte that is not a base, 1 for C, 2 for G,
    3 for T, in either case), reduced modulo 4^k. *)
Theorem AppendBase_spec (k : N) b km nuc :
  kmer.NewKmerBase k = Some b → (1 ≤ k)%N →
  kmer.AppendBase b km nuc = (4 * km + base_code nuc) mod 4 ^ Z.of_N k ∧
  0 ≤ kmer.AppendBase b km nuc ≤ kmer.mask b.
Proof.
  intros Hb H1. destruct (decide (k ≤ 32)%N) as [Hk|Hk].
  2:{ by rewrite NewKmerBase_large in Hb. }
  rewrite NewKmerBase_mask in Hb by done. injection Hb as <-.
  rewrite AppendBase_arith by lia. split; [done|]. cbn [kmer.mask].
  pose proof (pow4_pos (Z.of_N k) ltac:(lia)).
  pose proof (Z.mod_pos_bound (4 * km + base_code nuc) (4 ^ Z.of_N k)). lia.
Qed.

Lemma AppendBase_spec_witness :
  kmer.AppendBase (kmer.mkBase 2 15) 7 "G"%char = (4 * 7 + base_code "G"%char) mod 4 ^ Z.of_N 2 ∧
  0 ≤ kmer.AppendBase (kmer.mkBase 2 15) 7 "G"%char ≤ kmer.mask (kmer.mkBase 2 15).
Proof. apply (AppendBase_spec 2%N (kmer.mkBase 2 15) 7 "G"%char); [reflexivity | lia]. Defined.

(** X4: after the bytes of [s], at least k of them, have been appended to
    any k-mer, String() gives the last k of them as lower-case bases;
    except that for k = 32 a window of 32 'T' is the value InvalidKmer and
    is written as 32 dashes. *)
Theorem String_append_all (k : N) b km0 s :
  kmer.NewKmerBase k = Some b → (1 ≤ k)%N → (N.to_nat k ≤ length s)%nat →
  kmer.String b (append_all b km0 s) =
    if decide (k = 32%N ∧
               Forall (λ c, base_code c = 3) (drop (length s - N.to_nat k) s))
    then replicate 32 "-"%char
    else map base_letter (drop (length s - N.to_nat k) s).
Proof.
  intros Hb H1 Hlen. destruct (decide (k ≤ 32)%N) as [Hk|Hk].
  2:{ by rewrite NewKmerBase_large in Hb. }
  rewrite NewKmerBase_mask in Hb by done. injection Hb as <-.
  set (K := Z.of_N k).
  rewrite append_all_arith by (unfold K; lia).
  rewrite decide_False by (intros ->; simpl in Hlen; lia).
  set (s2 := drop (length s - N.to_nat k) s).
  assert (length s2 = N.to_nat k) as Hl2 by (unfold s2; rewrite length_drop; lia).
  assert (Z.of_nat (length s2) = K) as HlK by (unfold K; lia).
  rewrite <- (take_drop (length s - N.to_nat k) s) at 1 2. fold s2.
  set (s1 := take (length s - N.to_nat k) s).
  rewrite base4_app, length_app, Nat2Z.inj_add, Z.pow_add_r, HlK by lia.
  pose proof (pow4_pos K ltac:(unfold K; lia)) as HpK.
  pose proof (base4_range s2) as Hr. rewrite HlK in Hr.
  replace (km0 * (4 ^ Z.of_nat (length s1) * 4 ^ K) + (base4 s1 * 4 ^ K + base4 s2))
    with (base4 s2 + (km0 * 4 ^ Z.of_nat (length s1) + base4 s1) * 4 ^ K) by lia.
  rewrite Z.mod_add, Z.mod_small by lia.
  unfold kmer.String, kmer.InvalidKmer. cbn [kmer.k].
  pose proof (base4_all_T s2) as HT. rewrite HlK in HT.
  case_decide as Hd.
  - destruct Hd as [-> Hall]. apply HT in Hall. rewrite Hall. reflexivity.
  - destruct (Z.eqb_spec (base4 s2) (2 ^ 64 - 1)) as [Heq|Hne].
    + exfalso. apply Hd.
      assert (4 ^ K ≤ 2 ^ 64) by (apply pow4_le_64; unfold K; lia).
      assert (K = 32) as HK32.
      { destruct (decide (K = 32)); [done|].
        assert (4 ^ K ≤ 4 ^ 31) by (apply Z.pow_le_mono_r; unfold K in *; lia).
        assert (4 ^ 31 < 2 ^ 64 - 1) by reflexivity. lia. }
      split; [unfold K in HK32; lia|]. apply HT. rewrite Heq, HK32. reflexivity.
    + replace (Z.to_nat K) with (length s2) by lia.
      replace (base4 s2) with (0 * 4 ^ Z.of_nat (length s2) + base4 s2) by lia.
      by rewrite String_loop_base4.
Qed.

Lemma String_append_all_witness :
  kmer.String (kmer.mkBase 3 63) (append_all (kmer.mkBase 3 63) 0 (bytes "ACGTn")) =
    bytes "gta".
Proof.
  exact (String_append_all 3%N (kmer.mkBase 3 63) 0 (bytes "ACGTn")
           eq_refl ltac:(lia) ltac:(simpl; lia)).
Defined.

(** X5: for a size NewKmerBase accepts, String() writes exactly k
    characters, whatever the value of the k-mer, also one that is not
    within the mask. *)
Theorem String_length (k : N) b km :
  kmer.NewKmerBase k = Some b →
  length (kmer.String b km) = N.to_nat k.
Proof.
  intros Hb. destruct (decide (k ≤ 32)%N) as [Hk|Hk].
  2:{ by rewrite NewKmerBase_large in Hb. }
  rewrite NewKmerBase_mask in Hb by done. injection Hb as <-.
  unfold kmer.String. cbn [kmer.k]. destruct (km =? kmer.InvalidKmer).
  - rewrite length_replicate. by rewrite <- N_nat_Z, Nat2Z.id.
  - rewrite String_loop_length. by rewrite <- N_nat_Z, Nat2Z.id.
Qed.

Lemma String_length_witness :
  length (kmer.String (kmer.mkBase 3 63) 1000) = N.to_nat 3.
Proof. exact (String_length 3%N (kmer.mkBase 3 63) 1000 eq_refl). Defined.

End kmer_facts.

(** ** Further facts about the FASTA reader *)

Section fasta_more.
Import bufio.

(** An unterminated rest shorter than the buffer is returned with the
    error of the source. *)
Lemma ReadSlice_last b l :
  nl ∉ l → length l < buf_size b → unread b = l →
  ReadSlice b = (l, Some (src_err b), with_unread b []).
Proof.
  intros Hn Hlen Hu. unfold ReadSlice. rewrite Hu.
  rewrite take_ge by lia. rewrite read_line_unterminated by done.
  by rewrite decide_False by lia.
Qed.

Lemma drop_last_app1 (l : list byte) c : drop_last (l ++ [c]) = l.
Proof.
  unfold drop_last. rewrite length_app. simpl.
  replace (length l + 1 - 1) with (length l) by lia. apply take_app_length.
Qed.

(** Whatever ReadSlice returns holds no terminator before its last byte. *)
Lemma ReadSlice_drop_last b ln e b' :
  ReadSlice b = (ln, e, b') → nl ∉ drop_last ln.
Proof.
  unfold ReadSlice.
  destruct (read_line (take (buf_size b) (unread b))) as [[l r] fd] eqn:E.
  destruct (read_line_split _ _ _ _ E) as (Hl & Ht & Hf).
  destruct fd.
  - intros [= <- <- <-]. destruct (Ht eq_refl) as (body & -> & Hb).
    by rewrite drop_last_app1.
  - destruct (Hf eq_refl) as [-> Hn]. rewrite app_nil_r in Hl. subst l.
    assert (∀ l : list byte, nl ∉ l → nl ∉ drop_last l) as Hsub.
    { intros l Hl Hin. apply Hl. unfold drop_last in Hin.
      by apply (subseteq_take (length l - 1) l). }
    case_decide; intros [= <- <- <-]; apply Hsub; [done|].
    by rewrite take_ge in Hn by lia.
Qed.

Lemma starts_with_app c (acc l : list byte) x t :
  starts_with c acc = false → l = x :: t → x ≠ c →
  starts_with c (acc ++ drop_last l) = false.
Proof.
  intros Hacc -> Hx. destruct acc as [|a acc]; [|done].
  cbn [app]. unfold drop_last. cbn [length].
  destruct t as [|y t]; [done|]. cbn. by apply bool_decide_eq_false.
Qed.

Lemma Fasta_Sequence_loop_inv fuel :
  ∀ f acc s f', Fasta.Sequence_loop fuel f acc = Some (s, f') →
    nl ∉ acc → starts_with gt acc = false →
    (nl ∉ s) ∧ starts_with gt s = false.
Proof.
  induction fuel as [|fuel IH]; intros f acc s f'; [done|].
  cbn [Fasta.Sequence_loop].
  destruct (ReadSlice (Fasta.br f)) as [[ln e] b] eqn:E.
  pose proof (ReadSlice_drop_last _ _ _ _ E) as Hdl.
  destruct (if decide (e = Some ErrBufferFull) then None else e).
  { intros [= <- <-]. done. }
  destruct ln as [|c ln]; [by intros [= <- <-]|].
  case_decide as Hc; [by intros [= <- <-]|].
  intros Hrun Hacc Hst. eapply IH; [exact Hrun| |].
  - rewrite not_elem_of_app. done.
  - by eapply starts_with_app.
Qed.

Lemma Fastq_Sequence_loop_inv fuel :
  ∀ f acc s f', Fastq.Sequence_loop fuel f acc = Some (s, f') →
    nl ∉ acc → starts_with plus acc = false →
    (nl ∉ s) ∧ starts_with plus s = false.
Proof.
  induction fuel as [|fuel IH]; intros f acc s f'; [done|].
  cbn [Fastq.Sequence_loop].
  destruct (ReadSlice (Fastq.br f)) as [[ln e] b] eqn:E.
  pose proof (ReadSlice_drop_last _ _ _ _ E) as Hdl.
  destruct (if decide (e = Some ErrBufferFull) then None else e).
  { intros [= <- <-]. done. }
  destruct ln as [|c ln]; [by intros [= <- <-]|].
  case_decide as Hc; [by intros [= <- <-]|].
  intros Hrun Hacc Hst. eapply IH; [exact Hrun| |].
  - rewrite not_elem_of_app. done.
  - by eapply starts_with_app.
Qed.

End fasta_more.

(** X6: whatever the input, a sequence returned by Sequence() holds no
    line terminator, and it does not start with the byte that ends the
    sequence block: '>' for FASTA, '+' for FASTQ. *)
Theorem Sequence_has_no_terminator r s r' :
  goseq.Sequence r = Some (s, r') →
  (nl ∉ s) ∧
  match r with
  | goseq.FastaReader _ => starts_with gt s = false
  | goseq.FastqReader _ => starts_with plus s = false
  end.
Proof.
  destruct r as [f|f]; cbn [goseq.Sequence].
  - destruct (Fasta.Sequence f) as [[s0 f0]|] eqn:E; [|done].
    intros [= <- <-]. eapply Fasta_Sequence_loop_inv; [exact E | apply not_elem_of_nil | done].
  - destruct (Fastq.Sequence f) as [[s0 f0]|] eqn:E; [|done].
    intros [= <- <-]. eapply Fastq_Sequence_loop_inv; [exact E | apply not_elem_of_nil | done].
Qed.

Lemma Sequence_has_no_terminator_witness :
  (nl ∉ bytes "ACGTACGT") ∧ starts_with gt (bytes "ACGTACGT") = false.
Proof.
  exact (Sequence_has_no_terminator
           (goseq.FastaReader (Fasta.Next (fresh_fasta (goseq.plain_file two_fasta))).2)
           (bytes "ACGTACGT") _ eq_refl).
Defined.

(** ** Next() does not advance by itself *)

(** X7: on the FASTA reader a second Next(), with no read in between,
    gives the same answer and leaves the reader as it is, in whatever
    state the reader was.  The error with which the source ends is any
    error but the marker of a reader not yet started, which no source
    returns. *)
Theorem Fasta_Next_idempotent f :
  bufio.src_err (Fasta.br f) ≠ errNotStarted →
  Fasta.Next (Fasta.Next f).2 = Fasta.Next f.
Proof.
  intros Hsrc.
  assert (∀ g, Fasta.lastErr g ≠ Some errNotStarted →
            Fasta.Next g =
              if decide (Fasta.lastErr g = Some io_EOF) then
                (false, Fasta.mkReader true (Fasta.br g) (Fasta.lastErr g)
                          (Fasta.identifierBytes g) (Fasta.lastBytes g))
              else if decide (Fasta.lastErr g = None) then
                (starts_with gt (Fasta.identifierBytes g), g)
              else (false, g)) as Hrun.
  { intros g Hg. unfold Fasta.Next.
    destruct (decide (Fasta.lastErr g = Some errNotStarted)); [done|].
    repeat case_decide; try done. by destruct (Fasta.identifierBytes g). }
  assert (∃ g, Fasta.lastErr g ≠ Some errNotStarted ∧ Fasta.Next f = Fasta.Next g)
    as (g & Hg & ->).
  { destruct (decide (Fasta.lastErr f = Some errNotStarted)) as [He|He];
      [|by exists f].
    destruct (bufio.ReadBytes (Fasta.br f)) as [[ln e] b] eqn:E.
    exists (Fasta.mkReader (Fasta.closed f) b e ln (Fasta.lastBytes f)). split.
    - cbn. unfold bufio.ReadBytes in E.
      destruct (bufio.read_line _) as [[l r] fd]. destruct fd; simplify_eq; congruence.
    - unfold Fasta.Next at 1.
      destruct (decide (Fasta.lastErr f = Some errNotStarted)); [|done]. rewrite E.
      rewrite Hrun; [cbn; repeat case_decide; try done; by destruct ln|].
      cbn. unfold bufio.ReadBytes in E.
      destruct (bufio.read_line _) as [[l r] fd]. destruct fd; simplify_eq; congruence. }
  rewrite (Hrun g Hg).
  repeat case_decide; cbn [snd]; rewrite Hrun; cbn; try done;
    repeat case_decide; try done; congruence.
Qed.

Lemma Fasta_Next_idempotent_witness :
  Fasta.Next (Fasta.Next (fresh_fasta (goseq.plain_file two_fasta))).2
  = Fasta.Next (fresh_fasta (goseq.plain_file two_fasta)).
Proof.
  apply (Fasta_Next_idempotent (fresh_fasta (goseq.plain_file two_fasta))).
  discriminate.
Defined.

(** X8: on a stream that starts with '@' the format-detecting Open and
    OpenFastq return the same result: the same FASTQ decoder and no
    error, or the same error when the stream cannot be opened. *)
Theorem Open_FASTQ_agrees_with_OpenFastq fl rest :
  goseq.data fl = at_sign :: rest →
  goseq.Open fl = goseq.OpenFastq fl.
Proof.
  intros Hd. unfold goseq.Open, goseq.OpenFastq.
  destruct (goseq.open_err fl); [done|].
  destruct (if goseq.HasSuffix _ _ then _ else _); [done|].
  unfold bufio.Peek1. cbn. rewrite Hd.
  rewrite decide_True by done. by rewrite decide_False by (intros H; by apply H).
Qed.

Lemma Open_FASTQ_agrees_with_OpenFastq_witness :
  goseq.Open (goseq.plain_file two_fastq) = goseq.OpenFastq (goseq.plain_file two_fastq).
Proof.
  apply (Open_FASTQ_agrees_with_OpenFastq (goseq.plain_file two_fastq)
           (tail two_fastq)).
  reflexivity.
Defined.

(** ** Sequence() and SequenceBytes() *)

Section sequence_bytes.
Import bufio.

(** The three ways a ReadSlice ends. *)
Lemma ReadSlice_cases b ln e b' :
  ReadSlice b = (ln, e, b') →
  (e = None ∧ ∃ body, ln = body ++ [nl] ∧ nl ∉ body) ∨
  (e = Some ErrBufferFull ∧ length ln = buf_size b ∧ nl ∉ ln) ∨
  (e = Some (src_err b) ∧ ln = unread b ∧ unread b' = [] ∧ (nl ∉ ln) ∧
   length ln < buf_size b).
Proof.
  unfold ReadSlice.
  destruct (read_line (take (buf_size b) (unread b))) as [[l r] fd] eqn:E.
  destruct (read_line_split _ _ _ _ E) as (Hl & Ht & Hf).
  destruct fd.
  - intros [= <- <- <-]. left. split; [done|]. by apply Ht.
  - destruct (Hf eq_refl) as [-> Hn]. rewrite app_nil_r in Hl. subst l.
    case_decide; intros [= <- <- <-].
    + right. left. split_and!; [done | | done]. rewrite length_take. lia.
    + right. right. rewrite take_ge in Hn by lia. split_and!; try done. lia.
Qed.

Lemma SequenceBytes_loop_outcome fuel :
  ∀ f acc s f',
    2 ≤ buf_size (Fasta.br f) → src_err (Fasta.br f) ≠ ErrBufferFull →
    Fasta.Sequence_loop fuel f acc = Some (s, f') →
    ∀ fuel', fuel ≤ fuel' →
      Fasta.SequenceBytes_loop fuel' f acc = Some (bytes_outcome s f').
Proof.
  induction fuel as [|fuel IH]; intros f acc s f' HB Hsrc; [done|].
  intros Hrun [|fuel'] Hfuel; [lia|]. revert Hrun.
  cbn [Fasta.Sequence_loop Fasta.SequenceBytes_loop].
  destruct (ReadSlice (Fasta.br f)) as [[ln e] b] eqn:E.
  destruct (ReadSlice_split _ _ _ _ E) as (_ & HB' & Hsrc').
  destruct (ReadSlice_cases _ _ _ _ E) as [[-> (body & -> & Hb)]|[(-> & Hlen & Hn)|(-> & Hln & _ & Hn & Hlen)]].
  - (* a terminated line *)
    rewrite (decide_False (P := None = Some ErrBufferFull)) by done.
    rewrite (decide_False (P := None = Some io_EOF)) by done.
    destruct body as [|c body]; cbn [app].
    + rewrite (decide_False (P := nl = gt)) by done.
      rewrite (decide_False (P := 1 < length [nl])) by (simpl; lia).
      intros Hrun. unfold drop_last in Hrun. cbn in Hrun. rewrite app_nil_r in Hrun.
      eapply IH; [| |exact Hrun|lia]; cbn; congruence.
    + rewrite (decide_True (P := 1 < length (c :: body ++ [nl])))
        by (cbn; rewrite length_app; simpl; lia).
      cbn [starts_with]. destruct (decide (c = gt)) as [->|Hc].
      * rewrite bool_decide_eq_true_2 by done. intros [= <- <-]. done.
      * rewrite bool_decide_eq_false_2 by done. intros Hrun.
        eapply IH; [| |exact Hrun|lia]; cbn; congruence.
  - (* a full buffer *)
    rewrite (decide_True (P := Some ErrBufferFull = Some ErrBufferFull)) by done.
    rewrite (decide_False (P := None = Some io_EOF)) by done.
    rewrite (decide_True (P := 1 < length ln)) by lia.
    destruct ln as [|c ln]; [simpl in Hlen; lia|].
    cbn [starts_with]. destruct (decide (c = gt)) as [->|Hc].
    + rewrite bool_decide_eq_true_2 by done. intros [= <- <-]. done.
    + rewrite bool_decide_eq_false_2 by done. intros Hrun.
      eapply IH; [| |exact Hrun|lia]; cbn; congruence.
  - (* the end of the data *)
    rewrite (decide_False (P := Some (src_err (Fasta.br f)) = Some ErrBufferFull))
      by congruence.
    intros [= <- <-]. unfold bytes_outcome, returned_error.
    cbn [Fasta.lastErr Fasta.lastBytes Fasta.closed Fasta.br].
    case_decide as H1.
    + destruct (starts_with gt ln); [done|]. by repeat case_decide.
    + by repeat case_decide.
Qed.

Lemma terminated_app_r (l1 l2 : list byte) :
  terminated (l1 ++ l2) → terminated l2.
Proof.
  intros [H|H]; [left; by apply app_eq_nil in H as [_ ->]|].
  destruct l2 as [|c l2] using rev_ind; [by left|]. right.
  rewrite app_assoc, last_snoc in H. by rewrite last_snoc.
Qed.

Lemma terminated_no_nl (l : list byte) : terminated l → nl ∉ l → l = [].
Proof.
  intros [H|H] Hn; [done|]. exfalso. apply Hn.
  destruct l as [|c l] using rev_ind; [done|].
  rewrite last_snoc in H. injection H as ->. apply elem_of_app. right. left.
Qed.

(** On a terminated text Sequence() ends at a header line or on an empty
    read. *)
Lemma Fasta_Sequence_loop_rest fuel :
  ∀ f acc s f',
    Fasta.Sequence_loop fuel f acc = Some (s, f') →
    src_err (Fasta.br f) ≠ ErrBufferFull →
    terminated (unread (Fasta.br f)) →
    Fasta.lastErr f' ≠ None → Fasta.lastBytes f' = [].
Proof.
  induction fuel as [|fuel IH]; intros f acc s f'; [done|].
  cbn [Fasta.Sequence_loop].
  destruct (ReadSlice (Fasta.br f)) as [[ln e] b] eqn:E.
  destruct (ReadSlice_split _ _ _ _ E) as (Hu & _ & Hsrc').
  intros Hrun Hsrc Hterm. revert Hrun.
  assert (terminated (unread b)) as Hb
    by (rewrite Hu in Hterm; by eapply terminated_app_r).
  destruct (ReadSlice_cases _ _ _ _ E) as [[-> _]|[(-> & _)|(-> & Hln & _ & Hn & _)]].
  - rewrite (decide_False (P := None = Some ErrBufferFull)) by done.
    destruct ln as [|c ln]; [by intros [= <- <-]|].
    case_decide; [by intros [= <- <-]|].
    intros Hrun. eapply IH; [exact Hrun| |]; cbn; congruence.
  - rewrite (decide_True (P := Some ErrBufferFull = Some ErrBufferFull)) by done.
    destruct ln as [|c ln]; [by intros [= <- <-]|].
    case_decide; [by intros [= <- <-]|].
    intros Hrun. eapply IH; [exact Hrun| |]; cbn; congruence.
  - rewrite decide_False by congruence. intros [= <- <-] _. cbn.
    subst ln. by apply terminated_no_nl.
Qed.

End sequence_bytes.

(** X9: on a text whose last line is terminated, read through a buffer
    of two bytes or more, SequenceBytes() hands the callback exactly the
    bytes Sequence() returns and leaves the reader in the same state; it
    returns the last error of the reader, except io.EOF, which it does
    not report.  The source does not itself end on bufio.ErrBufferFull,
    which only the buffered reader raises. *)
Theorem SequenceBytes_agrees_with_Sequence f s f' :
  2 ≤ bufio.buf_size (Fasta.br f) →
  bufio.src_err (Fasta.br f) ≠ ErrBufferFull →
  terminated (bufio.unread (Fasta.br f)) →
  Fasta.Sequence f = Some (s, f') →
  Fasta.SequenceBytes f = Some (returned_error (Fasta.lastErr f'), s, f').
Proof.
  intros HB Hsrc Hterm Hrun. unfold Fasta.SequenceBytes.
  rewrite (SequenceBytes_loop_outcome _ f [] s f' HB Hsrc Hrun) by lia.
  f_equal. unfold bytes_outcome.
  destruct (Fasta.lastErr f') as [x|] eqn:He; [|done].
  rewrite (Fasta_Sequence_loop_rest _ f [] s f' Hrun Hsrc Hterm) by congruence.
  by rewrite decide_False by (simpl; lia).
Qed.

Lemma SequenceBytes_agrees_with_Sequence_witness :
  Fasta.SequenceBytes (Fasta.Next (fresh_fasta (goseq.plain_file two_fasta))).2
  = Some (returned_error None, bytes "ACGTACGT",
          fasta_state bufio.defaultBufSize false (bytes ">s2" ++ [nl])
                      (bytes ">s2" ++ [nl]) (text ["TTTT"]) None).
Proof.
  apply (SequenceBytes_agrees_with_Sequence
           (Fasta.Next (fresh_fasta (goseq.plain_file two_fasta))).2
           (bytes "ACGTACGT")
           (fasta_state bufio.defaultBufSize false (bytes ">s2" ++ [nl])
                        (bytes ">s2" ++ [nl]) (text ["TTTT"]) None)).
  - vm_compute. lia.
  - discriminate.
  - right. reflexivity.
  - vm_compute. reflexivity.
Defined.

(** X10: a last line without terminator, of two bytes or more, shorter
    than the buffer and not starting with '>', is not part of what
    Sequence() returns; SequenceBytes() hands it to the callback without
    its last byte.  Both end on io.EOF, in the same state. *)
Theorem Fasta_unterminated_last_line B cl idl lb lines last :
  2 ≤ B → Forall (fasta_line_ok B) lines →
  nl ∉ last → 2 ≤ length last < B → starts_with gt last = false →
  Fasta.Sequence (fasta_state B cl idl lb (unlines lines ++ last) None)
    = Some (concat lines, fasta_state B cl idl last [] (Some io_EOF)) ∧
  Fasta.SequenceBytes (fasta_state B cl idl lb (unlines lines ++ last) None)
    = Some (None, concat lines ++ drop_last last,
            fasta_state B cl idl last [] (Some io_EOF)).
Proof.
  intros HB Hlines Hn Hlen Hgt.
  assert (Fasta.Sequence (fasta_state B cl idl lb (unlines lines ++ last) None)
          = Some (concat lines, fasta_state B cl idl last [] (Some io_EOF))) as Hseq.
  { unfold Fasta.Sequence. cbn [Fasta.br fasta_state bufio.unread].
    pose proof (length_unlines_ge lines) as Hge.
    replace (S (length (unlines lines ++ last)))
      with (length lines + S (length (unlines lines ++ last) - length lines))
      by (rewrite length_app; lia).
    destruct (Fasta_Sequence_loop_lines B ltac:(lia) lines
                (S (length (unlines lines ++ last) - length lines))
                cl idl lb [] last Hlines) as [lb' ->].
    cbn [app Fasta.Sequence_loop fasta_state Fasta.br].
    erewrite (ReadSlice_last _ last); [| done | cbn; lia | done].
    by rewrite decide_False. }
  split; [done|]. unfold Fasta.SequenceBytes.
  rewrite (SequenceBytes_loop_outcome (S (length (unlines lines ++ last)))
             (fasta_state B cl idl lb (unlines lines ++ last) None) []
             (concat lines) (fasta_state B cl idl last [] (Some io_EOF)));
    [ | cbn; lia | cbn; done | exact Hseq | cbn; lia].
  unfold bytes_outcome. cbn [Fasta.lastErr Fasta.lastBytes fasta_state].
  rewrite decide_True by lia. by rewrite Hgt.
Qed.

Lemma Fasta_unterminated_last_line_witness :
  Fasta.Sequence (fasta_state 16 false (bytes ">s" ++ [nl]) []
                    (unlines [bytes "ACGT"] ++ bytes "TTGA") None)
    = Some (concat [bytes "ACGT"],
            fasta_state 16 false (bytes ">s" ++ [nl]) (bytes "TTGA") [] (Some io_EOF)) ∧
  Fasta.SequenceBytes (fasta_state 16 false (bytes ">s" ++ [nl]) []
                         (unlines [bytes "ACGT"] ++ bytes "TTGA") None)
    = Some (None, concat [bytes "ACGT"] ++ drop_last (bytes "TTGA"),
            fasta_state 16 false (bytes ">s" ++ [nl]) (bytes "TTGA") [] (Some io_EOF)).
Proof.
  apply (Fasta_unterminated_last_line 16 false (bytes ">s" ++ [nl]) []
           [bytes "ACGT"] (bytes "TTGA")).
  - lia.
  - compute_done.
  - compute_done.
  - simpl. lia.
  - reflexivity.
Defined.


(** ** The FASTA decoder on a text with an unterminated last line *)

Section fasta_text.
Import bufio.
Variable B : nat.
Hypothesis HB : 0 < B.
Variable last : list byte.
Hypothesis Hlast_nl : nl ∉ last.
Hypothesis Hlast_len : length last < B.

Lemma render_cons_tail r recs :
  render (r :: recs) ++ last
  = gt :: r.1 ++ nl :: unlines r.2 ++ render recs ++ last.
Proof.
  rewrite render_cons. cbn [app]. f_equal. rewrite <- app_assoc. cbn [app].
  f_equal. f_equal. by rewrite <- app_assoc.
Qed.

Lemma Fasta_Sequence_record_tail cl idl lb lines recs :
  Forall (fasta_line_ok B) lines → Forall (fasta_record_ok B) recs →
  Fasta.Sequence
    (fasta_state B cl idl lb (unlines lines ++ render recs ++ last) None)
  = Some (concat lines,
          match recs with
          | [] => fasta_state B cl idl last [] (Some io_EOF)
          | r :: recs' =>
              fasta_state B cl (gt :: r.1 ++ [nl]) (gt :: r.1 ++ [nl])
                          (unlines r.2 ++ render recs' ++ last) None
          end).
Proof.
  intros Hlines Hrecs. unfold Fasta.Sequence.
  cbn [Fasta.br fasta_state unread].
  pose proof (length_unlines_ge lines) as Hge.
  replace (S (length (unlines lines ++ render recs ++ last)))
    with (length lines
          + S (length (unlines lines ++ render recs ++ last) - length lines))
    by (rewrite length_app; lia).
  destruct (Fasta_Sequence_loop_lines B HB lines
              (S (length (unlines lines ++ render recs ++ last) - length lines))
              cl idl lb [] (render recs ++ last) Hlines) as [lb' ->].
  cbn [app]. destruct recs as [|r recs'].
  - cbn [Fasta.Sequence_loop fasta_state Fasta.br].
    erewrite (ReadSlice_last _ last); [| done | by cbn | done].
    by rewrite decide_False.
  - apply Forall_cons in Hrecs as [(Hid & Hlen & _) _].
    rewrite render_cons_tail.
    by apply Fasta_Sequence_loop_header.
Qed.

Lemma convert_loop_fasta_tail recs :
  ∀ fuel id lines lb sent,
    fasta_record_ok B (id, lines) → Forall (fasta_record_ok B) recs →
    length recs + 2 ≤ fuel →
    ∃ r', fq2fa.convert_loop fuel
            (goseq.FastaReader
               (fasta_state B false (gt :: id ++ [nl]) lb
                            (unlines lines ++ render recs ++ last) None)) sent
          = Some (sent ++ map to_Seq ((id, lines) :: recs), r') ∧
          goseq.Err r' = Some io_EOF.
Proof.
  induction recs as [|[id2 lines2] recs IH];
    intros fuel id lines lb sent (Hid & Hlen & Hlines) Hrecs Hfuel;
    (destruct fuel as [|fuel]; [lia|]);
    cbn [fq2fa.convert_loop];
    rewrite goseq_Next_header; cbn [mbind option_bind];
    rewrite goseq_Identifier_header; cbn [mbind option_bind];
    cbn [goseq.Sequence];
    rewrite Fasta_Sequence_record_tail by done; cbn [mbind option_bind].
  - destruct fuel as [|fuel]; [simpl in Hfuel; lia|].
    eexists. split; reflexivity.
  - cbn [fst snd]. apply Forall_cons in Hrecs as [Hr Hrecs].
    destruct (IH fuel id2 lines2 (gt :: id2 ++ [nl])
                (sent ++ [fq2fa.mkSeq id (concat lines)]) Hr Hrecs)
      as (r' & Hrun & Herr); [simpl in Hfuel; lia|].
    exists r'. split; [|done]. rewrite Hrun. do 2 f_equal.
    by rewrite <- app_assoc.
Qed.

End fasta_text.

(** X11: the FASTA decoder on a text of records, each a header line and
    terminated sequence lines that fit in the read buffer and do not
    start with '>': the conversion loop returns exactly these records, in
    order, each sequence being the concatenation of its lines.  What
    follows the last terminated line, if shorter than the buffer, is
    dropped. *)
Theorem convertFile_fasta_text recs last :
  recs ≠ [] → Forall (fasta_record_ok bufio.defaultBufSize) recs →
  nl ∉ last → length last < bufio.defaultBufSize →
  fq2fa.convertFile (goseq.plain_file (render recs ++ last))
  = Some (map to_Seq recs).
Proof.
  intros Hne Hrecs Hnl Hlen. destruct recs as [|[id lines] recs]; [done|].
  apply Forall_cons in Hrecs as [Hr Hrecs].
  assert (0 < bufio.defaultBufSize) as HB by (unfold bufio.defaultBufSize; lia).
  unfold fq2fa.convertFile. rewrite Open_stream by apply plain_file_opens.
  cbn [goseq.plain_file goseq.data].
  rewrite render_cons_tail. cbn [fst snd].
  rewrite decide_False by done.
  unfold fq2fa.records_of.
  erewrite (convert_loop_same_Next _ _
    (goseq.FastaReader (fasta_state bufio.defaultBufSize false (gt :: id ++ [nl]) []
                          (unlines lines ++ render recs ++ last) None))).
  - destruct (convert_loop_fasta_tail bufio.defaultBufSize HB last Hnl Hlen recs
                (S (S (length (goseq.unread (goseq.FastaReader (fresh_fasta
                   (goseq.plain_file
                      (gt :: id ++ nl :: unlines lines ++ render recs ++ last))))))))
                id lines [] [] Hr Hrecs) as (r' & Hrun & Herr).
    { cbn [goseq.unread fresh_fasta Fasta.br goseq.data goseq.plain_file
           bufio.NewReader bufio.unread length].
      rewrite !length_app. cbn [length]. rewrite !length_app.
      pose proof (length_render_ge recs). lia. }
    rewrite Hrun. cbn [mbind option_bind]. by rewrite Herr.
  - cbn [goseq.Next]. unfold Fasta.Next, fresh_fasta.
    cbn [Fasta.lastErr Fasta.br Fasta.closed Fasta.lastBytes goseq.data goseq.data_err].
    rewrite (decide_True (P := Some errNotStarted = Some errNotStarted)) by done.
    unfold bufio.NewReader.
    erewrite (ReadBytes_line _ (gt :: id) (unlines lines ++ render recs ++ last));
      [reflexivity | | done].
    rewrite not_elem_of_cons. split; [done | apply Hr].
Qed.

Lemma convertFile_fasta_text_witness :
  fq2fa.convertFile (goseq.plain_file (render sample_records ++ bytes "GATTACA"))
  = Some (map to_Seq sample_records).
Proof.
  apply (convertFile_fasta_text sample_records (bytes "GATTACA")).
  - discriminate.
  - compute_done.
  - compute_done.
  - vm_compute. lia.
Defined.

(** ** The FASTQ decoder on a valid text *)

Section fastq_decode.
Import bufio.
Variable B : nat.
Hypothesis HB : 0 < B.

Lemma fastq_line_head l :
  fastq_line_ok B l → ∃ c t, l ++ [nl] = c :: t ∧ c ≠ plus.
Proof.
  intros (_ & _ & Hs). destruct l as [|c l]; simpl.
  - by exists nl, [].
  - exists c, (l ++ [nl]). split; [done|]. simpl in Hs.
    by apply bool_decide_eq_false in Hs.
Qed.

Lemma Fastq_Sequence_loop_lines lines :
  ∀ fuel cl idl n lb acc rest,
    Forall (fastq_line_ok B) lines →
    ∃ lb',
      Fastq.Sequence_loop (length lines + fuel)
        (fastq_state B cl idl n lb (unlines lines ++ rest) None) acc
      = Fastq.Sequence_loop fuel (fastq_state B cl idl n lb' rest None)
          (acc ++ concat lines).
Proof.
  induction lines as [|l lines IH]; intros fuel cl idl n lb acc rest Hall.
  - exists lb. cbn [length concat unlines map app]. by rewrite app_nil_r.
  - apply Forall_cons in Hall as [Hl Hall].
    destruct (IH fuel cl idl n (l ++ [nl]) (acc ++ l) rest Hall) as [lb' IH'].
    exists lb'. cbn [concat]. rewrite (app_assoc acc l). rewrite <- IH'. clear IH'.
    cbn [length Nat.add Fastq.Sequence_loop].
    unfold unlines. cbn [map concat]. fold (unlines lines).
    rewrite <- !app_assoc. cbn [app].
    erewrite (ReadSlice_line _ l (unlines lines ++ rest)); [| by apply Hl | | done].
    2:{ cbn. by apply Hl. }
    rewrite (decide_False (P := None = Some ErrBufferFull)) by done.
    destruct (fastq_line_head l Hl) as (c & t & Hct & Hc).
    rewrite Hct. rewrite decide_False by done. rewrite <- Hct.
    by rewrite drop_last_app1.
Qed.

(** At the separator line Sequence() stops and records the length of the
    sequence. *)
Lemma Fastq_Sequence_loop_sep fuel cl idl n lb acc sep rest :
  nl ∉ sep → length sep + 2 ≤ B →
  Fastq.Sequence_loop (S fuel)
    (fastq_state B cl idl n lb (plus :: sep ++ nl :: rest) None) acc
  = Some (acc, fastq_state B cl idl (length acc) (plus :: sep ++ [nl]) rest None).
Proof.
  intros Hs Hlen. cbn [Fastq.Sequence_loop].
  erewrite (ReadSlice_line _ (plus :: sep) rest); [| | | done].
  2:{ rewrite not_elem_of_cons. done. }
  2:{ cbn. lia. }
  rewrite (decide_False (P := None = Some ErrBufferFull)) by done.
  cbn [app]. by rewrite decide_True.
Qed.

Lemma Fastq_Sequence_record cl idl n lb lines sep rest :
  Forall (fastq_line_ok B) lines → nl ∉ sep → length sep + 2 ≤ B →
  Fastq.Sequence
    (fastq_state B cl idl n lb (unlines lines ++ plus :: sep ++ nl :: rest) None)
  = Some (concat lines,
          fastq_state B cl idl (length (concat lines)) (plus :: sep ++ [nl]) rest None).
Proof.
  intros Hlines Hs Hlen. unfold Fastq.Sequence.
  cbn [Fastq.br fastq_state unread].
  pose proof (length_unlines_ge lines) as Hge.
  replace (S (length (unlines lines ++ plus :: sep ++ nl :: rest)))
    with (length lines
          + S (length (unlines lines ++ plus :: sep ++ nl :: rest) - length lines))
    by (rewrite length_app; lia).
  destruct (Fastq_Sequence_loop_lines lines
              (S (length (unlines lines ++ plus :: sep ++ nl :: rest) - length lines))
              cl idl n lb [] (plus :: sep ++ nl :: rest) Hlines) as [lb' ->].
  cbn [app]. by apply Fastq_Sequence_loop_sep.
Qed.

Lemma quality_strays n qs :
  fastq_quality_ok n qs →
  n ≤ length (unlines qs) ∧
  ∃ strays, drop n (unlines qs) = unlines strays ∧ Forall stray_line strays.
Proof.
  intros (Hnl & Hlen & Hpos & Hshape). split.
  - rewrite length_unlines. lia.
  - destruct Hshape as [H1|Hat].
    + destruct qs as [|q [|q' qs]]; try done. subst n.
      destruct (drop_unwrapped_quality q) as [Hd Hs]. by exists [[]].
    + apply drop_unlines_strays. apply Forall_and. done.
Qed.

Lemma Fastq_Next_next_header cl idl n lb qs id more :
  fastq_quality_ok n qs → nl ∉ id →
  Fastq.Next (fastq_state B cl idl n lb (unlines qs ++ at_sign :: id ++ nl :: more) None)
  = Some (true, fastq_state B cl (at_sign :: id ++ [nl]) 0 lb more None).
Proof.
  intros Hq Hid. destruct (quality_strays n qs Hq) as (Hle & strays & Hd & Hs).
  rewrite (Fastq_Next_resync _ strays (at_sign :: id ++ nl :: more)
             (at_sign :: id ++ [nl]) more true); try done.
  - cbn. destruct Hq as (_ & _ & Hpos & _). done.
  - cbn. rewrite length_app. lia.
  - cbn. rewrite drop_app_le by done. by rewrite Hd.
  - apply (read_line_terminated (at_sign :: id)). rewrite not_elem_of_cons. done.
Qed.

Lemma Fastq_Next_end cl idl n lb qs :
  fastq_quality_ok n qs →
  Fastq.Next (fastq_state B cl idl n lb (unlines qs) None)
  = Some (false, fastq_state B cl [] 0 lb [] (Some io_EOF)).
Proof.
  intros Hq. destruct (quality_strays n qs Hq) as (Hle & strays & Hd & Hs).
  rewrite (Fastq_Next_resync _ strays [] [] [] false); try done.
  - cbn. destruct Hq as (_ & _ & Hpos & _). done.
  - cbn. by rewrite app_nil_r.
Qed.

Lemma slice_fastq_header id : slice_1_to_last (at_sign :: id ++ [nl]) = Some id.
Proof.
  unfold slice_1_to_last. cbn [length]. rewrite length_app. cbn [length].
  rewrite decide_True by lia. f_equal. cbn [drop].
  replace (S (length id + 1) - 2) with (length id) by lia.
  apply take_app_length.
Qed.

Lemma render_fastq_cons r recs :
  render_fastq (r :: recs)
  = at_sign :: fq_id r ++ nl :: unlines (fq_seq r)
      ++ plus :: fq_sep r ++ nl :: unlines (fq_qual r) ++ render_fastq recs.
Proof.
  unfold render_fastq, render_fastq_record. cbn [map concat app].
  f_equal. rewrite <- app_assoc. cbn [app]. do 2 f_equal.
  rewrite <- app_assoc. cbn [app]. f_equal. rewrite <- app_assoc. cbn [app].
  do 2 f_equal.
Qed.

(** One round of the conversion loop on a record whose header line has
    been read. *)
Lemma convert_round_fastq fuel r recs lb sent :
  fastq_record_ok B r →
  fq2fa.convert_loop (S fuel)
    (goseq.FastqReader
       (fastq_state B false (at_sign :: fq_id r ++ [nl]) 0 lb
          (unlines (fq_seq r) ++ plus :: fq_sep r ++ nl :: unlines (fq_qual r)
             ++ render_fastq recs) None)) sent
  = fq2fa.convert_loop fuel
      (goseq.FastqReader
         (fastq_state B false (at_sign :: fq_id r ++ [nl])
            (length (concat (fq_seq r))) (plus :: fq_sep r ++ [nl])
            (unlines (fq_qual r) ++ render_fastq recs) None))
      (sent ++ [fastq_to_Seq r]).
Proof.
  intros (Hid & Hseq & Hsep & Hlen & Hq).
  cbn [fq2fa.convert_loop goseq.Next].
  change (Fastq.Next (fastq_state B false (at_sign :: fq_id r ++ [nl]) 0 lb ?u None))
    with (Some (true, fastq_state B false (at_sign :: fq_id r ++ [nl]) 0 lb u None)).
  cbn [mbind option_bind goseq.Identifier goseq.Sequence].
  unfold Fastq.Identifier. cbn [fastq_state Fastq.identifierBytes].
  rewrite slice_fastq_header. cbn [mbind option_bind].
  fold (fastq_state B false (at_sign :: fq_id r ++ [nl]) 0 lb
          (unlines (fq_seq r) ++ plus :: fq_sep r ++ nl :: unlines (fq_qual r)
             ++ render_fastq recs) None).
  rewrite Fastq_Sequence_record by done. by cbn [mbind option_bind].
Qed.

Lemma convert_loop_fastq recs :
  ∀ fuel idl n lb qs sent,
    fastq_quality_ok n qs → Forall (fastq_record_ok B) recs →
    length recs + 1 ≤ fuel →
    ∃ r', fq2fa.convert_loop fuel
            (goseq.FastqReader
               (fastq_state B false idl n lb (unlines qs ++ render_fastq recs) None))
            sent
          = Some (sent ++ map fastq_to_Seq recs, r') ∧
          goseq.Err r' = Some io_EOF.
Proof.
  induction recs as [|r recs IH]; intros fuel idl n lb qs sent Hq Hrecs Hfuel.
  - destruct fuel as [|fuel]; [simpl in Hfuel; lia|].
    cbn [fq2fa.convert_loop goseq.Next render_fastq map concat].
    rewrite app_nil_r. rewrite Fastq_Next_end by done.
    cbn [mbind option_bind]. eexists. split; [by rewrite app_nil_r|done].
  - apply Forall_cons in Hrecs as [Hr Hrecs].
    destruct fuel as [|fuel]; [simpl in Hfuel; lia|].
    pose proof Hr as (Hid & Hseq & Hsep & Hlen & Hq').
    rewrite render_fastq_cons.
    erewrite (convert_loop_same_Next fuel _
      (goseq.FastqReader
         (fastq_state B false (at_sign :: fq_id r ++ [nl]) 0 lb
            (unlines (fq_seq r) ++ plus :: fq_sep r ++ nl :: unlines (fq_qual r)
               ++ render_fastq recs) None))).
    2:{ cbn [goseq.Next]. rewrite Fastq_Next_next_header by done. reflexivity. }
    rewrite convert_round_fastq by done.
    destruct (IH fuel (at_sign :: fq_id r ++ [nl]) (length (concat (fq_seq r)))
                (plus :: fq_sep r ++ [nl]) (fq_qual r) (sent ++ [fastq_to_Seq r])
                Hq' Hrecs) as (r' & Hrun & Herr); [simpl in Hfuel; lia|].
    exists r'. split; [|done]. rewrite Hrun. cbn [map]. do 2 f_equal.
    by rewrite <- app_assoc.
Qed.

End fastq_decode.

(** The FASTQ decoder is correct on a valid text. *)
Lemma convertFile_fastq_records recs :
  recs ≠ [] → Forall (fastq_record_ok bufio.defaultBufSize) recs →
  fq2fa.convertFile (goseq.plain_file (render_fastq recs))
  = Some (map fastq_to_Seq recs).
Proof.
  intros Hne Hrecs. destruct recs as [|r recs]; [done|].
  apply Forall_cons in Hrecs as [Hr Hrecs].
  pose proof Hr as (Hid & Hseq & Hsep & Hlen & Hq).
  assert (0 < bufio.defaultBufSize) as HB by (unfold bufio.defaultBufSize; lia).
  unfold fq2fa.convertFile. rewrite Open_stream by apply plain_file_opens.
  cbn [goseq.plain_file goseq.data]. rewrite render_fastq_cons.
  rewrite decide_True by done.
  unfold fq2fa.records_of.
  erewrite (convert_loop_same_Next _ _
    (goseq.FastqReader
       (fastq_state bufio.defaultBufSize false (at_sign :: fq_id r ++ [nl]) 0 []
          (unlines (fq_seq r) ++ plus :: fq_sep r ++ nl :: unlines (fq_qual r)
             ++ render_fastq recs) None))).
  2:{ cbn [goseq.Next]. unfold Fastq.Next, Fastq.fastqOpenFrom, fresh_fasta.
      cbn [Fastq.lastErr Fastq.br Fastq.closed Fastq.lastBytes Fastq.lastSeqLen
           Fastq.identifierBytes Fasta.lastErr Fasta.br Fasta.closed
           goseq.data goseq.data_err].
      rewrite (decide_True (P := Some errNotStarted = Some errNotStarted)) by done.
      unfold bufio.NewReader.
      erewrite (ReadBytes_line _ (at_sign :: fq_id r)); [reflexivity | | done].
      rewrite not_elem_of_cons. done. }
  rewrite (convert_round_fastq bufio.defaultBufSize HB) by done.
  destruct (convert_loop_fastq bufio.defaultBufSize HB recs
              (S (length (goseq.unread (goseq.FastqReader (Fastq.fastqOpenFrom
                 (fresh_fasta (goseq.plain_file
                    (at_sign :: fq_id r ++ nl :: unlines (fq_seq r)
                       ++ plus :: fq_sep r ++ nl :: unlines (fq_qual r)
                       ++ render_fastq recs))))))))
              (at_sign :: fq_id r ++ [nl]) (length (concat (fq_seq r)))
              (plus :: fq_sep r ++ [nl]) (fq_qual r) ([] ++ [fastq_to_Seq r])
              Hq Hrecs) as (r' & Hrun & Herr).
  { cbn [goseq.unread Fastq.fastqOpenFrom fresh_fasta Fasta.br Fastq.br goseq.data
         goseq.plain_file bufio.NewReader bufio.unread length].
    assert (length recs ≤ length (render_fastq recs)) as Hge.
    { clear. induction recs as [|x recs IH]; [done|].
      rewrite render_fastq_cons.
      repeat progress (rewrite ?length_app; cbn [length]). lia. }
    repeat progress (rewrite ?length_app; cbn [length]). lia. }
  rewrite Hrun. cbn [mbind option_bind]. by rewrite Herr.
Qed.

(** X12: the FASTQ decoder on a text of records, each a header line, a
    non-empty sequence in terminated lines that fit in the read buffer, a
    separator line, and a quality block with as many quality bytes as the
    sequence, on one line or wrapped and free of '@': the conversion loop
    returns exactly these records, in order, each sequence being the
    concatenation of its lines. *)
Theorem convertFile_fastq_text recs :
  recs ≠ [] → Forall (fastq_record_ok bufio.defaultBufSize) recs →
  fq2fa.convertFile (goseq.plain_file (render_fastq recs))
  = Some (map fastq_to_Seq recs).
Proof. apply convertFile_fastq_records. Qed.

Lemma convertFile_fastq_text_witness :
  fq2fa.convertFile (goseq.plain_file (render_fastq sample_fastq))
  = Some (map fastq_to_Seq sample_fastq).
Proof.
  apply (convertFile_fastq_text sample_fastq).
  - discriminate.
  - compute_done.
Defined.

(** X13: when fewer bytes are left than the sequence just returned was
    long (a truncated quality block), Next() consumes them, returns false
    and keeps the end error of the source as the last error. *)
Theorem Fastq_Next_truncated f :
  Fastq.lastErr f = None →
  length (bufio.unread (Fastq.br f)) < Fastq.lastSeqLen f →
  Fastq.Next f =
    Some (false,
          Fastq.mkReader (Fastq.closed f) (bufio.with_unread (Fastq.br f) [])
            (Fastq.identifierBytes f)
            (Fastq.lastSeqLen f - length (bufio.unread (Fastq.br f)))
            (Fastq.lastBytes f) (Some (bufio.src_err (Fastq.br f)))).
Proof.
  intros He Hlen. unfold Fastq.Next. rewrite He.
  rewrite (decide_False (P := None = Some errNotStarted)) by done.
  rewrite He.
  rewrite (decide_False (P := None = Some io_EOF)) by done.
  rewrite (decide_True (P := None = None)) by done.
  rewrite (decide_True (P := 0 < Fastq.lastSeqLen f)) by lia.
  destruct (Fastq.lastSeqLen f) as [|k] eqn:EL; [lia|].
  cbn [Fastq.discard_loop]. rewrite EL, He.
  rewrite !bool_decide_eq_true_2 by (done || lia). cbn [andb].
  unfold bufio.Discard. rewrite !decide_False by lia.
  assert (∀ fuel g, Fastq.lastErr g ≠ None → Fastq.discard_loop fuel g = Some g) as Hstop.
  { intros fuel g Hg. destruct fuel; cbn [Fastq.discard_loop];
      rewrite (bool_decide_eq_false_2 (Fastq.lastErr g = None)) by done;
      by rewrite andb_false_r. }
  rewrite Hstop by done. cbn [mbind option_bind Fastq.lastErr].
  by rewrite decide_False.
Qed.

Lemma Fastq_Next_truncated_witness :
  Fastq.Next (after_sequence 4 (bytes "!!")) =
    Some (false,
          Fastq.mkReader false (bufio.NewReader [] io_EOF) (bytes "@r1" ++ [nl]) 2
                         (bytes "+" ++ [nl]) (Some io_EOF)).
Proof.
  apply (Fastq_Next_truncated (after_sequence 4 (bytes "!!"))).
  - reflexivity.
  - simpl. lia.
Defined.

(** ** SequenceBytes() of the FASTQ reader *)

Section fastq_bytes.
Import bufio.
Variable B : nat.
Hypothesis HB : 0 < B.

Lemma Fastq_SequenceBytes_loop_lines lines :
  ∀ fuel cl idl n lb out rest,
    Forall (fastq_line_ok B) lines →
    ∃ lb',
      Fastq.SequenceBytes_loop (length lines + fuel)
        (fastq_state B cl idl n lb (unlines lines ++ rest) None) out
      = Fastq.SequenceBytes_loop fuel
          (fastq_state B cl idl (n + length (concat lines)) lb' rest None)
          (out ++ concat lines).
Proof.
  induction lines as [|l lines IH]; intros fuel cl idl n lb out rest Hall.
  - exists lb. cbn [length concat unlines map app]. rewrite app_nil_r.
    by rewrite Nat.add_0_r.
  - apply Forall_cons in Hall as [Hl Hall].
    destruct (IH fuel cl idl (n + length l) (l ++ [nl]) (out ++ l) rest Hall)
      as [lb' IH'].
    exists lb'. cbn [concat]. rewrite (app_assoc out l), length_app, Nat.add_assoc.
    rewrite <- IH'. clear IH'.
    cbn [length Nat.add Fastq.SequenceBytes_loop].
    unfold unlines. cbn [map concat]. fold (unlines lines).
    rewrite <- !app_assoc. cbn [app].
    erewrite (ReadSlice_line _ l (unlines lines ++ rest)); [| by apply Hl | | done].
    2:{ cbn. by apply Hl. }
    rewrite (decide_False (P := None = Some ErrBufferFull)) by done.
    rewrite (decide_False (P := None = Some io_EOF)) by done.
    rewrite drop_last_app1.
    destruct l as [|c l].
    + cbn [app length]. rewrite decide_False by lia.
      cbn [fastq_state Fastq.lastSeqLen Fastq.closed Fastq.identifierBytes
           Fastq.br with_unread buf_size src_err].
      rewrite Nat.add_0_r, app_nil_r. reflexivity.
    + rewrite decide_True by (cbn; rewrite length_app; simpl; lia).
      destruct Hl as (_ & _ & Hs). cbn [app starts_with] in Hs |- *. rewrite Hs.
      reflexivity.
Qed.

End fastq_bytes.

(** X14: on the lines of a FASTQ record, SequenceBytes() started with a
    zero count, as Next() leaves it, hands the callback exactly the bytes
    Sequence() returns, stops after the separator line as Sequence() does
    and leaves the reader in the same state, the number of bytes handed
    over being recorded as the sequence length. *)
Theorem Fastq_SequenceBytes_agrees B cl idl lb lines sep rest :
  0 < B → Forall (fastq_line_ok B) lines → nl ∉ sep → length sep + 2 ≤ B →
  ∃ f',
    Fastq.Sequence
      (fastq_state B cl idl 0 lb (unlines lines ++ plus :: sep ++ nl :: rest) None)
      = Some (concat lines, f') ∧
    Fastq.SequenceBytes
      (fastq_state B cl idl 0 lb (unlines lines ++ plus :: sep ++ nl :: rest) None)
      = Some (None, concat lines, f') ∧
    Fastq.lastSeqLen f' = length (concat lines) ∧
    bufio.unread (Fastq.br f') = rest.
Proof.
  intros HB Hlines Hsep Hlen.
  exists (fastq_state B cl idl (length (concat lines)) (plus :: sep ++ [nl]) rest None).
  split_and!; [by apply Fastq_Sequence_record | | done | done].
  unfold Fastq.SequenceBytes. cbn [Fastq.br fastq_state bufio.unread].
  pose proof (length_unlines_ge lines) as Hge.
  replace (S (S (length (unlines lines ++ plus :: sep ++ nl :: rest))))
    with (length lines
          + S (S (length (unlines lines ++ plus :: sep ++ nl :: rest)) - length lines))
    by (rewrite length_app; lia).
  destruct (Fastq_SequenceBytes_loop_lines B HB lines
              (S (S (length (unlines lines ++ plus :: sep ++ nl :: rest)) - length lines))
              cl idl 0 lb [] (plus :: sep ++ nl :: rest) Hlines) as [lb' ->].
  cbn [app Nat.add Fastq.SequenceBytes_loop].
  erewrite (ReadSlice_line _ (plus :: sep) rest); [| | | done].
  2:{ rewrite not_elem_of_cons. done. }
  2:{ cbn. lia. }
  rewrite (decide_False (P := None = Some ErrBufferFull)) by done.
  rewrite decide_True by (cbn; rewrite length_app; simpl; lia).
  reflexivity.
Qed.

Lemma Fastq_SequenceBytes_agrees_witness :
  ∃ f',
    Fastq.Sequence
      (fastq_state 16 false (bytes "@r1" ++ [nl]) 0 []
         (unlines [bytes "AC"; bytes "GT"] ++ plus :: [] ++ nl :: text ["!!!!"]) None)
      = Some (concat [bytes "AC"; bytes "GT"], f') ∧
    Fastq.SequenceBytes
      (fastq_state 16 false (bytes "@r1" ++ [nl]) 0 []
         (unlines [bytes "AC"; bytes "GT"] ++ plus :: [] ++ nl :: text ["!!!!"]) None)
      = Some (None, concat [bytes "AC"; bytes "GT"], f') ∧
    Fastq.lastSeqLen f' = length (concat [bytes "AC"; bytes "GT"]) ∧
    bufio.unread (Fastq.br f') = text ["!!!!"].
Proof.
  apply (Fastq_SequenceBytes_agrees 16 false (bytes "@r1" ++ [nl]) []
           [bytes "AC"; bytes "GT"] [] (text ["!!!!"])).
  - lia.
  - compute_done.
  - compute_done.
  - simpl. lia.
Defined.

(** ** The sharder: positions *)

Lemma mod_add_same n k o : o < n → (k + o) mod n = k mod n → o = 0.
Proof.
  intros Ho Heq.
  pose proof (Nat.div_mod_eq k n) as H1.
  pose proof (Nat.div_mod_eq (k + o) n) as H2.
  rewrite Heq in H2.
  destruct (decide (k / n < (k + o) / n)); [nia|].
  assert ((k + o) / n ≤ k / n) by lia. nia.
Qed.

Lemma assigned_lookup n d rs :
  0 < n →
  ∀ k o j, o < n → (k + o) mod n = d →
    assigned n d k rs !! j = rs !! (o + j * n).
Proof.
  intros Hn. induction rs as [|s rs IH]; intros k o j Ho Hd; [done|].
  cbn [assigned]. case_decide as Hk.
  - assert (o = 0) as -> by (apply (mod_add_same n k); [done | congruence]).
    destruct j as [|j]; [done|].
    replace (0 + S j * n) with (S (n - 1 + j * n)) by lia.
    rewrite !lookup_cons. apply IH; [lia|].
    replace (S k + (n - 1)) with (k + 1 * n) by lia.
    by rewrite Nat.Div0.mod_add.
  - destruct o as [|o]; [by rewrite Nat.add_0_r in Hd|].
    cbn [Nat.add]. rewrite lookup_cons. apply IH; [lia|].
    by replace (S k + o) with (k + S o) by lia.
Qed.

(** X15: with n >= 1 destinations there are exactly n queues, one per
    destination, and every destination d < n has one: its j-th record is
    the record of arrival index j*n + d, so that it receives
    ceil((N - d) / n) of the N records and the destinations' shares
    differ by at most one record. *)
Theorem fanWriters_positions n rs :
  1 ≤ n →
  ∃ subs, fq2fa.fanWriters n rs = Some (subs, length rs) ∧
    length subs = n ∧
    ∀ d, d < n →
      ∃ q, subs !! d = Some q ∧
           (∀ j, q !! j = rs !! (j * n + d)) ∧
           length q = (length rs + n - 1 - d) / n.
Proof.
  intros Hn. unfold fq2fa.fanWriters.
  destruct (fanWriters_loop_spec n rs Hn (replicate n []) 0)
    as (subs & Hrun & Hl & Hsubs).
  { by rewrite length_replicate. }
  exists subs. split_and!; [done | done |]. intros d Hd.
  exists (assigned n d 0 rs).
  assert (subs !! d = Some (assigned n d 0 rs)) as Hq.
  { rewrite (Hsubs d []); [done|]. by apply lookup_replicate_2. }
  assert (∀ j, assigned n d 0 rs !! j = rs !! (j * n + d)) as Hpos.
  { intros j. rewrite (assigned_lookup n d rs Hn 0 d j Hd).
    - f_equal. lia.
    - by apply Nat.mod_small. }
  split_and!; [done | done |].
  set (L := length (assigned n d 0 rs)).
  assert (length rs ≤ L * n + d) as Hup.
  { apply lookup_ge_None. rewrite <- Hpos. by apply lookup_ge_None. }
  assert (L = 0 ∨ (L - 1) * n + d < length rs) as Hlow.
  { destruct (decide (L = 0)) as [|HL]; [by left|]. right.
    apply lookup_lt_is_Some. rewrite <- Hpos. apply lookup_lt_is_Some. lia. }
  apply (Nat.div_unique _ _ _ (length rs + n - 1 - d - n * L)).
  - destruct Hlow as [->|Hlow]; nia.
  - destruct Hlow as [HL|Hlow]; [rewrite HL in *; lia|]. nia.
Qed.

Lemma fanWriters_positions_witness :
  ∃ subs, fq2fa.fanWriters 3 four_records = Some (subs, length four_records) ∧
    length subs = 3 ∧
    ∀ d, d < 3 →
      ∃ q, subs !! d = Some q ∧
           (∀ j, q !! j = four_records !! (j * 3 + d)) ∧
           length q = (length four_records + 3 - 1 - d) / 3.
Proof. apply (fanWriters_positions 3 four_records). lia. Defined.

(** ** Writing and reading back *)

Lemma wrapped_seq_ok B s :
  80 < B → seq_ok B s → fasta_record_ok B (wrapped s).
Proof.
  intros HB (Hid & Hlen & Hnl & Hgt). unfold wrapped.
  split_and!; cbn [fst snd]; [done | done |].
  by apply wrapped_lines_ok.
Qed.

Lemma seqWriter_read_back rs :
  rs ≠ [] → Forall (seq_ok bufio.defaultBufSize) rs →
  fq2fa.convertFile (goseq.plain_file (render (map wrapped rs))) = Some rs.
Proof.
  intros Hne Hok. rewrite convertFile_valid_fasta.
  - f_equal. rewrite <- list_fmap_compose. rewrite <- (list_fmap_id rs) at 2.
    apply list_fmap_ext. intros i r _. cbn. apply to_Seq_wrapped.
  - by destruct rs.
  - apply Forall_fmap. eapply Forall_impl; [exact Hok|]. intros r Hr. cbn.
    apply wrapped_seq_ok; [|done]. unfold bufio.defaultBufSize. lia.
Qed.

(** X16: reading back what the writer wrote gives the records written:
    for a non-empty list of records whose identifiers are single lines
    that fit in the read buffer and whose sequences hold neither a
    terminator nor '>', the writer returns a text on which the conversion
    loop returns the same records, whatever the length of the
    sequences. *)
Theorem seqWriter_then_convertFile rs :
  rs ≠ [] → Forall (seq_ok bufio.defaultBufSize) rs →
  ∃ out, fq2fa.seqWriter rs = Some out ∧
         fq2fa.convertFile (goseq.plain_file out) = Some rs.
Proof.
  intros Hne Hok. exists (render (map wrapped rs)).
  split; [apply seqWriter_text | by apply seqWriter_read_back].
Qed.

Lemma seqWriter_then_convertFile_witness :
  ∃ out, fq2fa.seqWriter four_records = Some out ∧
         fq2fa.convertFile (goseq.plain_file out) = Some four_records.
Proof.
  apply (seqWriter_then_convertFile four_records).
  - discriminate.
  - compute_done.
Defined.

Lemma assigned_subseteq n d rs : ∀ k, assigned n d k rs ⊆ rs.
Proof.
  induction rs as [|s rs IH]; intros k; cbn [assigned]; [done|].
  case_decide.
  - intros x [->|Hx]%elem_of_cons; [left | right; by apply (IH (S k))].
  - intros x Hx. right. by apply (IH (S k)).
Qed.

(** X17: the sharder followed by the writers: with n >= 1 destinations
    and writable records there are exactly n queues, and for every
    destination d < n the text written from its queue reads back as
    exactly the records sent to it; a destination that received none
    gets an empty text, which cannot be opened again. *)
Theorem shards_read_back n rs :
  1 ≤ n → Forall (seq_ok bufio.defaultBufSize) rs →
  ∃ subs, fq2fa.fanWriters n rs = Some (subs, length rs) ∧
    length subs = n ∧
    ∀ d, d < n →
      ∃ q out, subs !! d = Some q ∧ q = assigned n d 0 rs ∧
               fq2fa.seqWriter q = Some out ∧
               fq2fa.convertFile (goseq.plain_file out)
               = if decide (q = []) then None else Some q.
Proof.
  intros Hn Hok. unfold fq2fa.fanWriters.
  destruct (fanWriters_loop_spec n rs Hn (replicate n []) 0)
    as (subs & Hrun & Hl & Hsubs).
  { by rewrite length_replicate. }
  exists subs. split_and!; [done | done |]. intros d Hd.
  exists (assigned n d 0 rs), (render (map wrapped (assigned n d 0 rs))).
  split_and!.
  - rewrite (Hsubs d []); [done|]. by apply lookup_replicate_2.
  - done.
  - apply seqWriter_text.
  - case_decide as He.
    + rewrite He. reflexivity.
    + apply seqWriter_read_back; [done|].
      apply Forall_forall. intros x Hx. rewrite Forall_forall in Hok.
      by apply Hok, (assigned_subseteq n d rs 0).
Qed.

Lemma shards_read_back_witness :
  ∃ subs, fq2fa.fanWriters 5 four_records = Some (subs, length four_records) ∧
    length subs = 5 ∧
    ∀ d, d < 5 →
      ∃ q out, subs !! d = Some q ∧ q = assigned 5 d 0 four_records ∧
               fq2fa.seqWriter q = Some out ∧
               fq2fa.convertFile (goseq.plain_file out)
               = if decide (q = []) then None else Some q.
Proof.
  apply (shards_read_back 5 four_records).
  - lia.
  - compute_done.
Defined.

(** X18: the conversion the command is for: a valid FASTQ text whose
    identifiers fit in the read buffer and whose sequences hold no '>' is
    decoded and written as a FASTA text, and reading that text gives the
    records of the FASTQ text: the identifiers and the sequences are
    kept, the separator lines and the qualities are dropped. *)
Theorem fastq_to_fasta recs :
  recs ≠ [] → Forall (fastq_record_ok bufio.defaultBufSize) recs →
  Forall (λ r, seq_ok bufio.defaultBufSize (fastq_to_Seq r)) recs →
  ∃ out,
    fq2fa.convertFile (goseq.plain_file (render_fastq recs)) ≫= fq2fa.seqWriter
      = Some out ∧
    fq2fa.convertFile (goseq.plain_file out) = Some (map fastq_to_Seq recs).
Proof.
  intros Hne Hrecs Hok.
  exists (render (map wrapped (map fastq_to_Seq recs))). split.
  - rewrite convertFile_fastq_records by done. cbn [mbind option_bind].
    apply seqWriter_text.
  - apply seqWriter_read_back; [by destruct recs|]. by apply Forall_fmap.
Qed.

Lemma fastq_to_fasta_witness :
  ∃ out,
    fq2fa.convertFile (goseq.plain_file (render_fastq sample_fastq)) ≫= fq2fa.seqWriter
      = Some out ∧
    fq2fa.convertFile (goseq.plain_file out) = Some (map fastq_to_Seq sample_fastq).
Proof.
  apply (fastq_to_fasta sample_fastq).
  - discriminate.
  - compute_done.
  - compute_done.
Defined.

(** ** stripExtenstions *)

Section file_names.

Lemma Ext_loop_skip path :
  ∀ j i, i ≤ j → j ≤ length path →
    (∀ m c, i ≤ m < j → path !! m = Some c → c ≠ dot ∧ c ≠ slash) →
    Ext_loop j path = Ext_loop i path.
Proof.
  induction j as [|j IH]; intros i Hi Hj Hno.
  - by replace i with 0 by lia.
  - destruct (decide (i = S j)) as [->|Hne]; [done|].
    cbn [Ext_loop].
    destruct (lookup_lt_is_Some_2 path j ltac:(lia)) as [c Hc]. rewrite Hc.
    destruct (Hno j c ltac:(lia) Hc) as [Hd Hs].
    unfold IsPathSeparator. rewrite !bool_decide_eq_false_2 by done.
    apply IH; [lia | lia |]. intros m c' Hm. apply Hno. lia.
Qed.

Lemma Ext_loop_suffix pre post :
  slash ∉ post → dot ∉ post →
  Ext (pre ++ post) = Ext_loop (length pre) (pre ++ post).
Proof.
  intros Hs Hd. unfold Ext. apply Ext_loop_skip.
  - rewrite length_app. lia.
  - done.
  - intros m c [Hm _] Hc. rewrite lookup_app_r in Hc by done.
    apply list_elem_of_lookup_2 in Hc. split; by intros ->.
Qed.

Lemma Ext_none dir base :
  dir = [] ∨ last dir = Some slash → slash ∉ base → dot ∉ base →
  Ext (dir ++ base) = [].
Proof.
  intros Hdir Hs Hd. rewrite Ext_loop_suffix by done.
  destruct Hdir as [->|Hlast]; [done|].
  apply last_Some in Hlast as [dir' ->].
  rewrite length_app. cbn [length]. rewrite Nat.add_1_r. cbn [Ext_loop].
  rewrite <- app_assoc. rewrite lookup_app_r by done.
  rewrite Nat.sub_diag. cbn [app lookup list_lookup].
  unfold IsPathSeparator. by rewrite bool_decide_eq_true_2.
Qed.

Lemma Ext_dot pre post :
  slash ∉ post → dot ∉ post → Ext (pre ++ dot :: post) = dot :: post.
Proof.
  intros Hs Hd.
  replace (pre ++ dot :: post) with ((pre ++ [dot]) ++ post)
    by (by rewrite <- app_assoc).
  rewrite Ext_loop_suffix by done.
  rewrite length_app. cbn [length]. rewrite Nat.add_1_r. cbn [Ext_loop].
  rewrite <- !app_assoc. rewrite lookup_app_r by done.
  rewrite Nat.sub_diag. cbn [app lookup list_lookup].
  unfold IsPathSeparator. rewrite bool_decide_eq_false_2 by done.
  rewrite bool_decide_eq_true_2 by done.
  by rewrite drop_app_length.
Qed.

Lemma TrimSuffix_app pre suf : TrimSuffix (pre ++ suf) suf = pre.
Proof.
  unfold TrimSuffix, HasSuffix. rewrite length_app.
  replace (length pre + length suf - length suf) with (length pre) by lia.
  rewrite drop_app_length, take_app_length.
  rewrite bool_decide_eq_true_2; [done|]. split; [lia | done].
Qed.

Lemma stripExtenstions_loop_spec dir stem :
  dir = [] ∨ last dir = Some slash → slash ∉ stem → dot ∉ stem →
  ∀ fuel exts, length exts ≤ fuel → slash ∉ exts →
    exts = [] ∨ head exts = Some dot →
    stripExtenstions_loop fuel (dir ++ stem ++ exts) (Ext (dir ++ stem ++ exts))
    = Some (dir ++ stem).
Proof.
  intros Hdir Hs Hd. induction fuel as [|fuel IH]; intros exts Hlen Hse Hhd.
  - destruct exts; [|simpl in Hlen; lia]. rewrite app_nil_r.
    rewrite Ext_none by done. done.
  - destruct Hhd as [->|Hhd].
    { rewrite app_nil_r. rewrite Ext_none by done. done. }
    assert (dot ∈ exts) as Hin.
    { destruct exts as [|c exts]; [done|]. injection Hhd as ->. left. }
    apply list_elem_of_split_r in Hin as (l1 & l2 & -> & Hl2).
    apply not_elem_of_app in Hse as [Hs1 Hs2].
    apply not_elem_of_cons in Hs2 as [_ Hs2].
    replace (dir ++ stem ++ l1 ++ dot :: l2) with ((dir ++ stem ++ l1) ++ dot :: l2)
      by (by rewrite <- !app_assoc).
    rewrite Ext_dot by done.
    cbn [stripExtenstions_loop]. rewrite decide_False by done.
    rewrite TrimSuffix_app. apply IH.
    + rewrite length_app in Hlen. simpl in Hlen. lia.
    + done.
    + destruct l1 as [|c l1]; [by left|]. right. done.
Qed.

End file_names.

(** X19: stripExtenstions returns, and removes every extension of the
    last path element: a name made of a directory part (empty or ending
    in '/'), a stem without '.' and a run of extensions, each starting
    with '.', is cut down to the directory part and the stem.  Dots in
    the directory part are kept; a last element that starts with '.' is
    removed whole. *)
Theorem stripExtenstions_spec dir stem exts :
  dir = [] ∨ last dir = Some slash →
  slash ∉ stem → dot ∉ stem →
  slash ∉ exts → exts = [] ∨ head exts = Some dot →
  stripExtenstions (dir ++ stem ++ exts) = Some (dir ++ stem).
Proof.
  intros Hdir Hs Hd Hse Hhd. unfold stripExtenstions.
  apply stripExtenstions_loop_spec; try done.
  rewrite !length_app. lia.
Qed.

Lemma stripExtenstions_spec_witness :
  stripExtenstions (bytes "run.1/" ++ bytes "reads" ++ bytes ".fastq.gz")
  = Some (bytes "run.1/" ++ bytes "reads").
Proof.
  apply (stripExtenstions_spec (bytes "run.1/") (bytes "reads") (bytes ".fastq.gz")).
  - right. reflexivity.
  - compute_done.
  - compute_done.
  - compute_done.
  - right. reflexivity.
Defined.

(** ** Lines longer than the read buffer *)

Section long_lines.
Import bufio.
Variable B : nat.
Hypothesis HB : 0 < B.

Lemma Fastq_Sequence_loop_full fuel cl idl n lb acc chunk rest :
  full_chunk B plus chunk →
  Fastq.Sequence_loop (S fuel) (fastq_state B cl idl n lb (chunk ++ rest) None) acc
  = Fastq.Sequence_loop fuel (fastq_state B cl idl n chunk rest None)
      (acc ++ drop_last chunk).
Proof.
  intros (Hlen & Hn & Hp). cbn [Fastq.Sequence_loop].
  erewrite (ReadSlice_full _ chunk rest); [|done|by cbn|done].
  rewrite decide_True by done.
  destruct chunk as [|c t]; [simpl in Hlen; lia|].
  simpl in Hp. apply bool_decide_eq_false in Hp.
  by rewrite decide_False.
Qed.

Lemma Fastq_Sequence_loop_chunks chunks :
  ∀ fuel cl idl n lb acc rest,
    Forall (full_chunk B plus) chunks →
    ∃ lb',
      Fastq.Sequence_loop (length chunks + fuel)
        (fastq_state B cl idl n lb (concat chunks ++ rest) None) acc
      = Fastq.Sequence_loop fuel (fastq_state B cl idl n lb' rest None)
          (acc ++ concat (map drop_last chunks)).
Proof.
  induction chunks as [|c chunks IH]; intros fuel cl idl n lb acc rest Hall.
  - exists lb. cbn [length concat map app Nat.add]. by rewrite app_nil_r.
  - apply Forall_cons in Hall as [Hc Hall].
    destruct (IH fuel cl idl n c (acc ++ drop_last c) rest Hall) as [lb' IH'].
    exists lb'. cbn [map concat length Nat.add]. rewrite <- app_assoc.
    rewrite Fastq_Sequence_loop_full by done. rewrite IH'.
    by rewrite <- app_assoc.
Qed.

Lemma length_concat_chunks c chunks :
  Forall (full_chunk B c) chunks →
  length (concat (map drop_last chunks)) + length chunks = length (concat chunks)
  ∧ length chunks ≤ length (concat chunks).
Proof.
  induction 1 as [|x chunks (Hx & _) _ IH]; [done|].
  cbn [map concat length]. rewrite !length_app.
  assert (length (drop_last x) + 1 = length x).
  { destruct x as [|a x] using rev_ind; [simpl in Hx; lia|].
    rewrite drop_last_app1, length_app. done. }
  lia.
Qed.

End long_lines.

(** X20: the FASTQ reader on a sequence line longer than the read
    buffer: the line is read in pieces of a buffer-full each, and
    Sequence() drops the last byte of every full piece as if it were a
    terminator, so the sequence returned, and the length recorded for
    skipping the qualities, is short by one byte per full piece. *)
Theorem Fastq_Sequence_long_line B cl idl lb chunks l sep rest :
  0 < B → Forall (full_chunk B plus) chunks → fastq_line_ok B l →
  nl ∉ sep → length sep + 2 ≤ B →
  ∃ s f',
    Fastq.Sequence
      (fastq_state B cl idl 0 lb
         ((concat chunks ++ l ++ [nl]) ++ plus :: sep ++ nl :: rest) None)
    = Some (s, f') ∧
    s = concat (map drop_last chunks) ++ l ∧
    length s + length chunks = length (concat chunks ++ l) ∧
    Fastq.lastSeqLen f' = length s ∧
    bufio.unread (Fastq.br f') = rest.
Proof.
  intros HB Hch Hl Hs Hlen.
  exists (concat (map drop_last chunks) ++ l),
    (fastq_state B cl idl (length (concat (map drop_last chunks) ++ l))
       (plus :: sep ++ [nl]) rest None).
  destruct (length_concat_chunks B HB plus chunks Hch) as [Hcnt Hle].
  split_and!; [| done | rewrite !length_app; lia | done | done].
  unfold Fastq.Sequence. cbn [Fastq.br fastq_state bufio.unread].
  set (tail := plus :: sep ++ nl :: rest).
  rewrite <- !app_assoc.
  replace (S (length (concat chunks ++ l ++ [nl] ++ tail)))
    with (length chunks + (length [l] + S (length (concat chunks) - length chunks
                                           + length l + length tail)))
    by (rewrite !length_app; cbn [length]; lia).
  destruct (Fastq_Sequence_loop_chunks B HB chunks
              (length [l] + S (length (concat chunks) - length chunks
                               + length l + length tail))
              cl idl 0 lb [] (l ++ [nl] ++ tail) Hch) as [lb1 ->].
  destruct (Fastq_Sequence_loop_lines B [l]
              (S (length (concat chunks) - length chunks + length l + length tail))
              cl idl 0 lb1 ([] ++ concat (map drop_last chunks)) tail)
    as [lb2 Hrun]; [by constructor|].
  unfold unlines in Hrun. cbn [map concat] in Hrun.
  rewrite app_nil_r in Hrun. rewrite <- app_assoc in Hrun. rewrite Hrun.
  cbn [app]. rewrite app_nil_r. unfold tail.
  by apply Fastq_Sequence_loop_sep.
Qed.

Lemma Fastq_Sequence_long_line_witness :
  ∃ s f',
    Fastq.Sequence
      (fastq_state 4 false (bytes "@r" ++ [nl]) 0 []
         ((concat [bytes "ACGT"; bytes "TTTT"] ++ bytes "GG" ++ [nl])
            ++ plus :: [] ++ nl :: text ["IIIIIIIIII"]) None)
    = Some (s, f') ∧
    s = concat (map drop_last [bytes "ACGT"; bytes "TTTT"]) ++ bytes "GG" ∧
    length s + length [bytes "ACGT"; bytes "TTTT"]
      = length (concat [bytes "ACGT"; bytes "TTTT"] ++ bytes "GG") ∧
    Fastq.lastSeqLen f' = length s ∧
    bufio.unread (Fastq.br f') = text ["IIIIIIIIII"].
Proof.
  apply (Fastq_Sequence_long_line 4 false (bytes "@r" ++ [nl]) []
           [bytes "ACGT"; bytes "TTTT"] (bytes "GG") [] (text ["IIIIIIIIII"])).
  - lia.
  - compute_done.
  - compute_done.
  - compute_done.
  - simpl. lia.
Defined.

(** X21: OpenFastq refuses a stream whose first byte is not '@': it
    returns no reader and the error "not a fastq file", where Open would
    have returned a FASTA reader. *)
Theorem OpenFastq_other_first_byte fl c rest :
  stream_opens fl → goseq.data fl = c :: rest → c ≠ at_sign →
  goseq.OpenFastq fl = (None, Some errNotFastq) ∧
  goseq.Open fl = (Some (goseq.FastaReader (fresh_fasta fl)), None).
Proof.
  intros Hopen Hdata Hc. split.
  - unfold goseq.OpenFastq. destruct Hopen as [-> Hgz].
    destruct (goseq.HasSuffix (goseq.filename fl) ".gz") eqn:Hsuf.
    + rewrite Hgz by done. cbn [Fastq.br]. unfold bufio.NewReader, bufio.Peek1.
      cbn [bufio.unread]. rewrite Hdata. by rewrite decide_True.
    + cbn [Fastq.br]. unfold bufio.NewReader, bufio.Peek1.
      cbn [bufio.unread]. rewrite Hdata. by rewrite decide_True.
  - rewrite Open_stream by done. rewrite Hdata. by rewrite decide_False.
Qed.

Lemma OpenFastq_other_first_byte_witness :
  goseq.OpenFastq (goseq.plain_file two_fasta) = (None, Some errNotFastq) ∧
  goseq.Open (goseq.plain_file two_fasta)
  = (Some (goseq.FastaReader (fresh_fasta (goseq.plain_file two_fasta))), None).
Proof.
  apply (OpenFastq_other_first_byte (goseq.plain_file two_fasta) gt
           (List.tl two_fasta)).
  - apply plain_file_opens.
  - reflexivity.
  - discriminate.
Defined.
